(** * Map annotation loader: a verification development

    Shallow embedding of [src/knowledge_representation/map_loader.py].

    Modelling conventions.

    - The source is read as Python 3 (it wraps a [map] in [list] where it
      needs a list): [map] and [filter] are lazy, and a lambda reads the
      variables of the enclosing call when it is run.  This matters in one
      place, the translation of the vertices of a region ([region_loop]).
    - An [ElementTree] element is a finite tree ([Element]); the identity of
      a node is its position in the tree ([path]).  Parsing the text of the
      document into the tree is not modelled.
    - Python exceptions are values of [exn]; a computation that may raise
      returns a [result]; a computation that may also call [warn] lives in
      the monad [M], which threads the log of the warnings emitted so far.
    - A Python [float] is modelled by the exact decimal it denotes
      ([decimal]); [round(x, 3)] yields a multiple of 0.001, stored as its
      number of thousandths ([Z]), a tie going to the even neighbour.
      Binary rounding noise, infinities and NaN are outside the model;
      [float(str)] is modelled on plain decimal literals (sign, digits,
      optional fraction) and raises [ValueError] elsewhere.
    - Strings are byte strings; [\d] is an ASCII digit.
    - [svgpathtools.parse_path] and
      [knowledge_representation.map_image_utils.point_to_map_coords] are
      not part of the source at hand: they are parameters of the
      development. *)

From Stdlib Require Import String Ascii Bool Arith ZArith Lia List DecimalString.
Import ListNotations.

Set Implicit Arguments.
Local Set Warnings "-register-all".
Local Open Scope list_scope.
Local Open Scope Z_scope.

(* ===================================================================== *)
(** ** Exceptions, results and the warning monad *)
(* ===================================================================== *)

Inductive exn : Type :=
| RuntimeError
| AttributeError
| KeyError
| ValueError.

Inductive result (A : Type) : Type :=
| Ok (a : A)
| Raise (e : exn).
Arguments Ok {A} a.
Arguments Raise {A} e.

Definition rbind {A B} (r : result A) (f : A -> result B) : result B :=
  match r with
  | Ok a => f a
  | Raise e => Raise e
  end.

(** Python [None]-able text: [Element.text] is a [str] or [None]. *)
Definition pytext := option string.

(** The discrepancies [check_svg_valid] reports.  Each constructor stands
    for one format string and carries the values formatted into it. *)
Inductive problem : Type :=
| ViewboxMismatch (viewbox target : string)
    (* "SVG viewbox is {} but should be {}" *)
| OriginNotZero (ori_x ori_y : Z * nat)
    (* "Image origin is ({}, {}) not (0, 0)" *)
| DimMismatch (e_w e_h : Z * nat) (w h : nat).
    (* "SVG or image dimensions are {}x{}, but YAML says they should be {}x{}" *)

(** The messages handed to [warnings.warn].  One constructor per format
    string of the source; the arguments are the values that are formatted
    into it. *)
Inductive warning : Type :=
| ComplexPointGroupTransform (name : pytext) (transform : string)
    (* "Can't process point group '{}' because it has a complex transform: {}" *)
| ComplexDoorGroupTransform (name : pytext) (transform : string)
    (* "Can't process door group '{}' because it has a complex transform: {}" *)
| WrongApproachCount (name : pytext) (n : nat)
    (* "Can't process door group '{}' because it had {} approach points (2 are expected)" *)
| NoDoorLine (name : pytext)
    (* "Couldn't extract line from door group '{}'" *)
| NoPathLabel
    (* "No text label found for path group: {}" *)
| ComplexPathGroupTransform (name : pytext) (transform : string)
    (* "Can't process path group '{}' because it has a complex transform: {}" *)
| UnparsedPath (name : pytext)
    (* "Encountered path that couldn't be parsed {}" *)
| ComplexPointTransform (name : pytext) (transform : string)
    (* "Can't process point '{}' because it has a complex transform: {}" *)
| ComplexPoseTransform (name : pytext) (transform : string)
    (* "Can't process pose '{}' because it has a complex transform: {}" *)
| ComplexRegionTransform (name : pytext) (transform : string)
    (* "Can't process region '{}' because it has a complex transform: {}" *)
| Problem (prob : problem).
    (* a message of [check_svg_valid], passed on by [load_map_from_yaml] *)

(** A computation that may warn and may raise. *)
Definition M (A : Type) : Type := list warning -> result A * list warning.

Definition ret {A} (a : A) : M A := fun w => (Ok a, w).

Definition bind {A B} (m : M A) (f : A -> M B) : M B :=
  fun w =>
    match m w with
    | (Ok a, w') => f a w'
    | (Raise e, w') => (Raise e, w')
    end.

Definition lift {A} (r : result A) : M A := fun w => (r, w).

Definition warn (msg : warning) : M unit := fun w => (Ok tt, w ++ [msg]).

(** [try: body  except RuntimeError: handler] *)
Definition try_except_RuntimeError {A} (body : M A) (handler : M A) : M A :=
  fun w =>
    match body w with
    | (Raise RuntimeError, w') => handler w'
    | other => other
    end.

Declare Scope py_scope.
Delimit Scope py_scope with py.
Notation "x <- m ;; k" := (bind m (fun x => k))
  (at level 61, m at next level, right associativity) : py_scope.
Notation "m ;;; k" := (bind m (fun _ => k))
  (at level 61, right associativity) : py_scope.
Local Open Scope py_scope.

(** [for x in xs: state = body(x, state)]: the loops of the source, with the
    accumulators they append to as the loop state.  [continue] is a body
    that returns the state unchanged. *)
Fixpoint for_each {A S} (body : A -> S -> M S) (xs : list A) (s : S) : M S :=
  match xs with
  | [] => ret s
  | x :: xs' => s' <- body x s ;; for_each body xs' s'
  end.

(* ===================================================================== *)
(** ** Numbers *)
(* ===================================================================== *)

(** [mant * 10^(-expo)] *)
Record decimal : Type := Decimal { mant : Z; expo : nat }.

Definition round_half_even (n q : Z) : Z :=
  let f := n / q in
  let r := n mod q in
  if 2 * r <? q then f
  else if q <? 2 * r then f + 1
  else if Z.even f then f else f + 1.

(** [round(x, 3)], as a count of thousandths. *)
Definition round3 (d : decimal) : Z :=
  if (expo d <=? 3)%nat
  then mant d * 10 ^ Z.of_nat (3 - expo d)
  else round_half_even (mant d) (10 ^ Z.of_nat (expo d - 3)).

Definition is_digit (c : ascii) : bool :=
  ((48 <=? nat_of_ascii c) && (nat_of_ascii c <=? 57))%nat.

Definition digit_val (c : ascii) : Z := Z.of_nat (nat_of_ascii c - 48).

Definition digits_val (s : list ascii) : Z :=
  fold_left (fun acc c => 10 * acc + digit_val c) s 0.

(** Longest prefix of characters satisfying [p], and the rest. *)
Fixpoint span (p : ascii -> bool) (s : list ascii) : list ascii * list ascii :=
  match s with
  | c :: s' =>
      if p c then let (a, b) := span p s' in (c :: a, b) else ([], s)
  | [] => ([], [])
  end.

Definition strip_sign (s : list ascii) : bool * list ascii :=
  match s with
  | c :: t =>
      if Ascii.eqb c "-" then (true, t)
      else if Ascii.eqb c "+" then (false, t)
      else (false, s)
  | [] => (false, s)
  end.

Definition apply_sign (neg : bool) (n : Z) : Z := if neg then - n else n.

(** [float(s)] for a string [s]: sign, integer digits, optional "." and
    fraction digits, with at least one digit. *)
Definition parse_decimal (s : list ascii) : option decimal :=
  let (neg, body) := strip_sign s in
  let (ip, rest) := span is_digit body in
  match rest with
  | [] =>
      match ip with
      | [] => None
      | _ => Some (Decimal (apply_sign neg (digits_val ip)) 0)
      end
  | c :: fp =>
      if Ascii.eqb c "." && forallb is_digit fp
         && negb ((length ip + length fp =? 0)%nat)
      then Some (Decimal (apply_sign neg (digits_val (ip ++ fp))) (length fp))
      else None
  end.

(** The values [float_s3] is applied to: attribute strings and regex groups
    ([str]), and the real and imaginary parts of path points ([float]). *)
Inductive pyval : Type :=
| PStr (s : string)
| PFloat (d : decimal).

Definition pyfloat (v : pyval) : result decimal :=
  match v with
  | PFloat d => Ok d
  | PStr s =>
      match parse_decimal (list_ascii_of_string s) with
      | Some d => Ok d
      | None => Raise ValueError
      end
  end.

Definition float_s3 (v : pyval) : result Z :=
  rbind (pyfloat v) (fun d => Ok (round3 d)).

(* ===================================================================== *)
(** ** Regular expressions ([re.match]) *)
(* ===================================================================== *)

(** The fragment of Python's pattern language that [translation_pattern]
    uses, with the backtracking order of [re]: the left alternative first,
    quantifiers greedy. *)
Inductive regex : Type :=
| Eps
| Chr (c : ascii)                  (* a literal character *)
| Cls (p : ascii -> bool)          (* a class: \d, [-+] *)
| Cat (r1 r2 : regex)
| Alt (r1 r2 : regex)              (* r1|r2 *)
| Opt (r : regex)                  (* r? *)
| Star (p : ascii -> bool)         (* c* for a class c *)
| Plus (p : ascii -> bool)         (* c+ for a class c *)
| Group (n : nat) (r : regex).     (* the n-th capturing group *)

Definition captures := list (nat * list ascii).

Definition orelse {A} (x y : option A) : option A :=
  match x with
  | Some a => Some a
  | None => y
  end.

Section Matcher.
Variable A : Type.

(** The continuation receives the text matched, the text left and the
    groups captured so far. *)
Definition cont := list ascii -> list ascii -> captures -> option A.

Fixpoint star (p : ascii -> bool) (s : list ascii)
    (k : list ascii -> list ascii -> option A) : option A :=
  match s with
  | c :: s' =>
      if p c
      then orelse (star p s' (fun m rest => k (c :: m) rest)) (k [] s)
      else k [] s
  | [] => k [] []
  end.

Fixpoint rmatch (r : regex) (s : list ascii) (caps : captures) (k : cont)
    : option A :=
  match r with
  | Eps => k [] s caps
  | Chr c =>
      match s with
      | c' :: s' => if Ascii.eqb c c' then k [c'] s' caps else None
      | [] => None
      end
  | Cls p =>
      match s with
      | c' :: s' => if p c' then k [c'] s' caps else None
      | [] => None
      end
  | Cat r1 r2 =>
      rmatch r1 s caps (fun m1 rest1 caps1 =>
        rmatch r2 rest1 caps1 (fun m2 rest2 caps2 =>
          k (m1 ++ m2) rest2 caps2))
  | Alt r1 r2 => orelse (rmatch r1 s caps k) (rmatch r2 s caps k)
  | Opt r1 => orelse (rmatch r1 s caps k) (k [] s caps)
  | Star p => star p s (fun m rest => k m rest caps)
  | Plus p =>
      match s with
      | c' :: s' =>
          if p c'
          then star p s' (fun m rest => k (c' :: m) rest caps)
          else None
      | [] => None
      end
  | Group n r1 =>
      rmatch r1 s caps (fun m rest caps1 => k m rest ((n, m) :: caps1))
  end.
End Matcher.

Fixpoint lookup_group (n : nat) (caps : captures) : option (list ascii) :=
  match caps with
  | (i, m) :: caps' => if (i =? n)%nat then Some m else lookup_group n caps'
  | [] => None
  end.

(** [re.match(r, s)]: the pattern must match at the start of [s]; what
    follows the match is not looked at.  The result is the match object
    (here: its groups), or [None]. *)
Definition re_match (r : regex) (s : string) : option captures :=
  rmatch r (list_ascii_of_string s) [] (fun _ _ caps => Some caps).

(** [match.group(n)] *)
Definition group (caps : captures) (n : nat) : string :=
  match lookup_group n caps with
  | Some m => string_of_list_ascii m
  | None => EmptyString
  end.

Fixpoint lit (s : list ascii) : regex :=
  match s with
  | [] => Eps
  | c :: s' => Cat (Chr c) (lit s')
  end.

Definition is_sign (c : ascii) : bool :=
  Ascii.eqb c "-"%char || Ascii.eqb c "+"%char.

(** [float_pattern = r"[-+]?\d*\.\d+|[-+]?\d+"] *)
Definition float_pattern : regex :=
  Alt (Cat (Opt (Cls is_sign)) (Cat (Star is_digit) (Cat (Chr "."%char) (Plus is_digit))))
      (Cat (Opt (Cls is_sign)) (Plus is_digit)).

(** [translation_pattern = r"^translate\(({})\,({})\)".format(float_pattern, float_pattern)].
    The leading [^] holds at the position where [re.match] starts. *)
Definition translation_pattern : regex :=
  Cat (lit (list_ascii_of_string "translate("))
   (Cat (Group 1 float_pattern)
    (Cat (Chr ","%char)
     (Cat (Group 2 float_pattern)
          (Chr ")"%char)))).

(* ===================================================================== *)
(** ** Elements *)
(* ===================================================================== *)

Inductive Element : Type :=
| Elem (tag : string) (attrib : list (string * string)) (text : pytext)
       (children : list Element).

Definition tag (e : Element) : string :=
  match e with Elem t _ _ _ => t end.
Definition attrib (e : Element) : list (string * string) :=
  match e with Elem _ a _ _ => a end.
Definition text (e : Element) : pytext :=
  match e with Elem _ _ t _ => t end.
Definition children (e : Element) : list Element :=
  match e with Elem _ _ _ cs => cs end.

(** [key in d] and [d.get(key)] for an attribute dictionary *)
Fixpoint get (key : string) (d : list (string * string)) : option string :=
  match d with
  | (k, v) :: d' => if String.eqb k key then Some v else get key d'
  | [] => None
  end.

(** [d[key]] *)
Definition getitem (d : list (string * string)) (key : string) : result string :=
  match get key d with
  | Some v => Ok v
  | None => Raise KeyError
  end.

Definition svg_el := "{http://www.w3.org/2000/svg}svg"%string.
Definition image_el := "{http://www.w3.org/2000/svg}image"%string.
Definition text_el := "{http://www.w3.org/2000/svg}text"%string.
Definition circle_el := "{http://www.w3.org/2000/svg}circle"%string.
Definition line_el := "{http://www.w3.org/2000/svg}line"%string.
Definition poly_el := "{http://www.w3.org/2000/svg}polygon"%string.
Definition path_el := "{http://www.w3.org/2000/svg}path"%string.
Definition group_el := "{http://www.w3.org/2000/svg}g"%string.
Definition tspan_el := "{http://www.w3.org/2000/svg}tspan"%string.

(** A translation, or a coordinate pair, in thousandths. *)
Definition xy : Type := Z * Z.

Definition get_group_transform (g : Element) : result xy :=
  match get "transform" (attrib g) with
  | None => Ok (0, 0)
  | Some t =>
      match re_match translation_pattern t with
      | None => Raise RuntimeError
      | Some translate_match =>
          rbind (float_s3 (PStr (group translate_match 1))) (fun a =>
          rbind (float_s3 (PStr (group translate_match 2))) (fun b =>
          Ok (a, b)))
      end
  end.


Definition path := list nat.

(** A node of a document: an element together with its position, which
    stands for the identity of the Python object. *)
Definition node : Type := path * Element.

(** [elem.iter()]: the element and everything below it, in document order. *)
Fixpoint iter_at (p : path) (e : Element) : list node :=
  match e with
  | Elem _ _ _ cs =>
      (p, e) ::
      (fix go (i : nat) (cs : list Element) : list node :=
         match cs with
         | [] => []
         | c :: cs' => iter_at (p ++ [i]) c ++ go (S i) cs'
         end) 0%nat cs
  end.

Fixpoint number_from (i : nat) (p : path) (cs : list Element) : list node :=
  match cs with
  | [] => []
  | c :: cs' => (p ++ [i], c) :: number_from (S i) p cs'
  end.

(** [list(elem)]: the children, as nodes. *)
Definition child_nodes (n : node) : list node :=
  number_from 0 (fst n) (children (snd n)).

(** The step [//tag] of a path expression: every element strictly below the
    context element that has the tag. *)
Definition descendants (n : node) : list node := tl (iter_at (fst n) (snd n)).

Definition has_tag (t : string) (n : node) : bool := String.eqb (tag (snd n)) t.

Definition select_descendants (t : string) (n : node) : list node :=
  filter (has_tag t) (descendants n).

(** The step [/tag]: the children that have the tag. *)
Definition select_children (t : string) (n : node) : list node :=
  filter (has_tag t) (child_nodes n).

(** The predicate [[@key='value']]. *)
Definition attr_is (key value : string) (n : node) : bool :=
  match get key (attrib (snd n)) with
  | Some v => String.eqb v value
  | None => false
  end.

(** [elem.find(tag)]: the first child with the tag. *)
Definition find_child (t : string) (e : Element) : option Element :=
  option_map snd (hd_error (select_children t ([], e))).

(** [elem.find(".//tag")]: the first element below [elem] with the tag. *)
Definition find_descendant (t : string) (e : Element) : option Element :=
  option_map snd (hd_error (select_descendants t ([], e))).

(** [elem.findall(tag)] *)
Definition findall_children (t : string) (e : Element) : list Element :=
  map snd (select_children t ([], e)).

(** The predicate [[tag]]: the element has a child with the tag. *)
Definition has_child (t : string) (n : node) : bool :=
  match find_child t (snd n) with
  | Some _ => true
  | None => false
  end.

Definition path_eqb (p q : path) : bool :=
  if list_eq_dec Nat.eq_dec p q then true else false.

(** [{c: p for p in tree.iter() for c in p}], keyed by the child's identity. *)
Definition parent_map (tree : Element) : list (path * node) :=
  flat_map (fun p => map (fun c => (fst c, p)) (child_nodes p)) (iter_at [] tree).

Fixpoint parent_lookup (pm : list (path * node)) (c : path) : option node :=
  match pm with
  | (k, p) :: pm' => if path_eqb k c then Some p else parent_lookup pm' c
  | [] => None
  end.

(** [parent_map.__getitem__] *)
Definition parent_getitem (pm : list (path * node)) (c : node) : result node :=
  match parent_lookup pm (fst c) with
  | Some p => Ok p
  | None => Raise KeyError
  end.

(** The step [/..]: the parents of the selected elements, each parent once,
    in the order in which it is first met. *)
Fixpoint select_parents (pm : list (path * node)) (seen : list path)
    (ns : list node) : list node :=
  match ns with
  | [] => []
  | n :: ns' =>
      match parent_lookup pm (fst n) with
      | Some p =>
          if existsb (path_eqb (fst p)) seen
          then select_parents pm seen ns'
          else p :: select_parents pm (fst p :: seen) ns'
      | None => select_parents pm seen ns'
      end
  end.

(** [tree.findall(".//{shape}[@class='{cls}']")] *)
Definition findall_marked (tree : Element) (shape cls : string) : list node :=
  filter (attr_is "class" cls) (select_descendants shape ([], tree)).

(** [tree.findall(".//{shape}[@class='{cls}']/../{text_el}")] *)
Definition findall_marked_names (tree : Element) (shape cls : string) : list node :=
  flat_map (select_children text_el)
    (select_parents (parent_map tree) [] (findall_marked tree shape cls)).

(** [tree.findall(".//{group_el}[{child}]")] *)
Definition findall_groups_with (tree : Element) (child : string) : list node :=
  filter (has_child child) (select_descendants group_el ([], tree)).

(** Inkscape tucks the label in a [tspan]: that is looked for first. *)
Definition get_text_from_group (g : Element) : option Element :=
  match find_descendant tspan_el g with
  | Some t => Some t
  | None => find_descendant text_el g
  end.

(** [x.text] where [x] may be [None] *)
Definition text_of (x : option Element) : result pytext :=
  match x with
  | Some e => Ok (text e)
  | None => Raise AttributeError
  end.

(** [x.attrib] where [x] may be [None] *)
Definition attrib_of (x : option Element) : result (list (string * string)) :=
  match x with
  | Some e => Ok (attrib e)
  | None => Raise AttributeError
  end.

Definition offset (translate : xy) (p : xy) : xy :=
  (fst p + fst translate, snd p + snd translate).

(** [float_s3(attrs[kx]) + translate[0], float_s3(attrs[ky]) + translate[1]] *)
Definition read_xy (attrs : list (string * string)) (kx ky : string)
    (translate : xy) : result xy :=
  rbind (getitem attrs kx) (fun sx =>
  rbind (float_s3 (PStr sx)) (fun x =>
  rbind (getitem attrs ky) (fun sy =>
  rbind (float_s3 (PStr sy)) (fun y =>
  Ok (x + fst translate, y + snd translate))))).

(** The [try: translate = get_group_transform(g) / except RuntimeError:
    warn(...); continue] of every loop: [None] stands for [continue]. *)
Definition resolve_transform (g : Element) (complaint : string -> warning)
    : M (option xy) :=
  try_except_RuntimeError
    (translate <- lift (get_group_transform g) ;; ret (Some translate))
    (t <- lift (getitem (attrib g) "transform") ;;
     warn (complaint t) ;;; ret None).

(* ===================================================================== *)
(** ** Strings: [str.split] *)
(* ===================================================================== *)

Definition is_space (c : ascii) : bool :=
  let n := nat_of_ascii c in
  ((9 <=? n) && (n <=? 13) || (28 <=? n) && (n <=? 32))%nat.

Definition snoc (s : string) (c : ascii) : string := (s ++ String c EmptyString)%string.

Definition flush (cur : string) : list string :=
  match cur with
  | EmptyString => []
  | _ => [cur]
  end.

Fixpoint split_ws_from (cur s : string) : list string :=
  match s with
  | EmptyString => flush cur
  | String c s' =>
      if is_space c then flush cur ++ split_ws_from EmptyString s'
      else split_ws_from (snoc cur c) s'
  end.

(** [s.split()]: the maximal runs of non-blank characters. *)
Definition split_ws (s : string) : list string := split_ws_from EmptyString s.

(** [s.split(",")]: a comma ends a field; fields may be empty. *)
Fixpoint split_comma (s : string) : list string :=
  match s with
  | EmptyString => [EmptyString]
  | String c s' =>
      if Ascii.eqb c "," then EmptyString :: split_comma s'
      else
        match split_comma s' with
        | f :: fs => String c f :: fs
        | [] => [String c EmptyString]
        end
  end.

(** [all_ok [r1; ...]] is the list of the values, or the first exception. *)
Fixpoint all_ok {A} (rs : list (result A)) : result (list A) :=
  match rs with
  | [] => Ok []
  | r :: rs' => rbind r (fun a => rbind (all_ok rs') (fun l => Ok (a :: l)))
  end.

(** [(float_s3(x_str), float_s3(y_str))] for [x_str, y_str = field.split(",")];
    the unpacking raises [ValueError] unless there are exactly two parts. *)
Definition parse_point (field : string) : result xy :=
  match split_comma field with
  | [x_str; y_str] =>
      rbind (float_s3 (PStr x_str)) (fun x =>
      rbind (float_s3 (PStr y_str)) (fun y => Ok (x, y)))
  | _ => Raise ValueError
  end.

(* ===================================================================== *)
(** ** Path geometry ([svgpathtools]) *)
(* ===================================================================== *)

(** A [complex]: real and imaginary part. *)
Definition complex : Type := decimal * decimal.

(** The segment classes of [svgpathtools]; every one has a start and an
    end point. *)
Inductive segment : Type :=
| Line (start end_ : complex)
| QuadraticBezier (start control end_ : complex)
| CubicBezier (start control1 control2 end_ : complex)
| Arc (start radius : complex) (rotation : decimal) (large_arc sweep : bool)
      (end_ : complex).

Definition seg_start (l : segment) : complex :=
  match l with
  | Line s _ | QuadraticBezier s _ _ | CubicBezier s _ _ _ | Arc s _ _ _ _ _ => s
  end.

Definition seg_end (l : segment) : complex :=
  match l with
  | Line _ e | QuadraticBezier _ _ e | CubicBezier _ _ _ e | Arc _ _ _ _ _ e => e
  end.

Definition is_line (path_part : segment) : bool :=
  match path_part with
  | Line _ _ => true
  | _ => false
  end.

(** [(float_s3(c.real), float_s3(c.imag))]; on a [float], [float_s3] is
    [round(_, 3)] and does not raise. *)
Definition round_point (c : complex) : xy := (round3 (fst c), round3 (snd c)).

(** The annotation records of the output, over the type [P] of a coordinate
    pair. *)
Definition point_t (P : Type) : Type := pytext * P.
Definition pose_t (P : Type) : Type := pytext * P * P.
Definition region_t (P : Type) : Type := pytext * list P.
Definition door_t (P : Type) : Type := pytext * (P * P) * list P.
Definition annotations (P : Type) : Type :=
  list (point_t P) * list (pose_t P) * list (region_t P) * list (door_t P).

(** The state of the loop of [process_paths] and of
    [process_region_annotations].

    A region is appended as [(name, points)] where [points] is the object
    [map(lambda p: (p[0] + translate[0], p[1] + translate[1]), points)].
    Under Python 3 this object is lazy: its lambda reads the variable
    [translate] of the enclosing call when the object is consumed, and that
    is after the loop has ended.  The state therefore keeps, for each region,
    the sequence the [map] object runs over ([pending]), and the current
    value of the variable [translate] ([translate_var]). *)
Record region_loop : Type := RegionLoop {
  pending : list (region_t xy);
  translate_var : xy
}.

(** What the pending [map] objects yield once the loop has ended. *)
Definition consume (st : region_loop) : list (region_t xy) :=
  map (fun r => (fst r, map (offset (translate_var st)) (snd r))) (pending st).

Definition length_is {A} (l : list A) (n : nat) : bool := (length l =? n)%nat.

Section Loader.

(** [svgpathtools.parse_path]: the segments of a path's [d] attribute, or
    an exception. *)
Variable parse_path : string -> result (list segment).

(** The record [map_metadata] and [point_to_map_coords] of
    [knowledge_representation.map_image_utils]; [W] is a coordinate pair
    of the map frame. *)
Variable map_info : Type.
Variable width height : map_info -> nat.
Variable W : Type.
Variable point_to_map_coords : map_info -> xy -> W.

Definition extract_line_from_path (path : option Element)
    (translate : option xy) : result (xy * xy) :=
  rbind (attrib_of path) (fun a =>
  rbind (getitem a "d") (fun d =>
  rbind (parse_path d) (fun path_geom =>
    let translate :=
      match translate with
      | None => (0, 0)
      | Some t => t
      end in
    match path_geom with
    | [line] =>
        if is_line line
        then
          (* We assume line starts at origin and points towards the second point *)
          let start_coord := offset translate (round_point (seg_start line)) in
          let end_coord := offset translate (round_point (seg_end line)) in
          Ok (start_coord, end_coord)
        else Raise RuntimeError
    | _ => Raise RuntimeError
    end))).

Fixpoint read_circles (circles : list Element) (translate : xy)
    : result (list xy) :=
  match circles with
  | [] => Ok []
  | circle :: rest =>
      rbind (read_xy (attrib circle) "cx" "cy" translate) (fun p =>
      rbind (read_circles rest translate) (fun ps => Ok (p :: ps)))
  end.

(** The body of the loop of [process_door_groups]. *)
Definition door_step (door_group : Element) (doors : list (door_t xy))
    : M (list (door_t xy)) :=
  name <- lift (text_of (get_text_from_group door_group)) ;;
  r <- resolve_transform door_group (ComplexDoorGroupTransform name) ;;
  match r with
  | None => ret doors
  | Some translate =>
      let circles := findall_children circle_el door_group in
      if negb (length_is circles 2)
      then
        (* Would we ever want more than 2 approach points? *)
        warn (WrongApproachCount name (length circles)) ;;; ret doors
      else
        approach_points <- lift (read_circles circles translate) ;;
        l <- try_except_RuntimeError
               (door_line <- lift (extract_line_from_path
                                     (find_child path_el door_group)
                                     (Some translate)) ;;
                ret (Some door_line))
               (warn (NoDoorLine name) ;;; ret None) ;;
        match l with
        | None => ret doors
        | Some door_line => ret (doors ++ [(name, door_line, approach_points)])
        end
  end.

Definition process_door_groups (door_groups : list Element)
    : M (list (door_t xy)) :=
  for_each door_step door_groups [].

(** The body of the loop of [process_paths]; the poses are the first
    component of the state. *)
Definition path_step (group : Element) (st : list (pose_t xy) * region_loop)
    : M (list (pose_t xy) * region_loop) :=
  let (poses, regions) := st in
  if negb (length_is (children group) 2)
  then ret st
  else
    let path := find_descendant path_el group in
    match get_text_from_group group with
    | None => warn NoPathLabel ;;; ret st
    | Some text_ =>
        let name := text text_ in
        r <- resolve_transform group (ComplexPathGroupTransform name) ;;
        match r with
        | None => ret (poses, RegionLoop (pending regions) (0, 0))
        | Some translate =>
            (* Single line segment path => pose *)
            l <- try_except_RuntimeError
                   (pose <- lift (extract_line_from_path path (Some translate)) ;;
                    ret (Some pose))
                   (ret None) ;;
            match l with
            | Some pose =>
                ret (poses ++ [(name, fst pose, snd pose)],
                     RegionLoop (pending regions) translate)
            | None =>
                a <- lift (attrib_of path) ;;
                d <- lift (getitem a "d") ;;
                path_geom <- lift (parse_path d) ;;
                (* If they're all lines, let's assume it's closed and use it as a region *)
                if forallb is_line path_geom
                then
                  (* Each line segment starts where the previous ended, so we can drop the end points *)
                  let points := map (fun l => round_point (seg_start l)) path_geom in
                  ret (poses, RegionLoop (pending regions ++ [(name, points)]) translate)
                else
                  warn (UnparsedPath name) ;;;
                  ret (poses, RegionLoop (pending regions) translate)
            end
        end
    end.

Definition process_paths (path_groups : list Element)
    : M (list (pose_t xy) * list (region_t xy)) :=
  match path_groups with
  | [] => ret ([], [])
  | _ =>
      st <- for_each path_step path_groups ([], RegionLoop [] (0, 0)) ;;
      ret (fst st, consume (snd st))
  end.

(** The three tool-tagged loops run over
    [zip(annotations, names, groups)], where [groups] is the lazy
    [map(parent_map.__getitem__, annotations)]: an element of it is a
    parent or a [KeyError]. *)
Definition zip3 {A B C} (xs : list A) (ys : list B) (zs : list C)
    : list (A * B * C) :=
  combine (combine xs ys) zs.

Definition point_step (x : Element * Element * result Element)
    (points : list (point_t xy)) : M (list (point_t xy)) :=
  let '(point, text_, parent) := x in
  parent <- lift parent ;;
  let name := text text_ in
  r <- resolve_transform parent (ComplexPointTransform name) ;;
  match r with
  | None => ret points
  | Some translate =>
      pixel_coord <- lift (read_xy (attrib point) "cx" "cy" translate) ;;
      ret (points ++ [(name, pixel_coord)])
  end.

Definition process_point_annotations
    (point_names point_annotations : list Element)
    (point_groups : list (result Element)) : M (list (point_t xy)) :=
  for_each point_step (zip3 point_annotations point_names point_groups) [].

Definition pose_step (x : Element * Element * result Element)
    (poses : list (pose_t xy)) : M (list (pose_t xy)) :=
  let '(pose, text_, parent) := x in
  parent <- lift parent ;;
  let name := text text_ in
  r <- resolve_transform parent (ComplexPoseTransform name) ;;
  match r with
  | None => ret poses
  | Some translate =>
      start_cord <- lift (read_xy (attrib pose) "x1" "y1" translate) ;;
      stop_cord <- lift (read_xy (attrib pose) "x2" "y2" translate) ;;
      ret (poses ++ [(name, start_cord, stop_cord)])
  end.

Definition process_pose_annotations
    (pose_names pose_annotations : list Element)
    (pose_groups : list (result Element)) : M (list (pose_t xy)) :=
  for_each pose_step (zip3 pose_annotations pose_names pose_groups) [].

Definition region_step (x : Element * Element * result Element)
    (regions : region_loop) : M region_loop :=
  let '(region, text_, parent) := x in
  parent <- lift parent ;;
  let name := text text_ in
  r <- resolve_transform parent (ComplexRegionTransform name) ;;
  match r with
  | None => ret (RegionLoop (pending regions) (0, 0))
  | Some translate =>
      points <- lift (getitem (attrib region) "points") ;;
      let points_strs := split_ws points in
      poly_points <- lift (all_ok (map parse_point points_strs)) ;;
      (* Apply any translation *)
      ret (RegionLoop (pending regions ++ [(name, poly_points)]) translate)
  end.

Definition process_region_annotations
    (region_names region_annotations : list Element)
    (region_groups : list (result Element)) : M (list (region_t xy)) :=
  st <- for_each region_step
          (zip3 region_annotations region_names region_groups)
          (RegionLoop [] (0, 0)) ;;
  ret (consume st).

(** The body of the loop of [load_svg] over the point groups. *)
Definition point_group_step (group : Element)
    (extra_points : list (point_t xy)) : M (list (point_t xy)) :=
  name <- lift (text_of (get_text_from_group group)) ;;
  r <- resolve_transform group (ComplexPointGroupTransform name) ;;
  match r with
  | None => ret extra_points
  | Some translate =>
      a <- lift (attrib_of (find_descendant circle_el group)) ;;
      match get "class" a with
      | Some _ =>
          (* This was probably created by the annotation tool. Already processed above *)
          ret extra_points
      | None =>
          pixel_coord <- lift (read_xy a "cx" "cy" translate) ;;
          ret (extra_points ++ [(name, pixel_coord)])
      end
  end.

Definition parents_of (tree : Element) (ns : list node)
    : list (result Element) :=
  map (fun n => rbind (parent_getitem (parent_map tree) n) (fun p => Ok (snd p))) ns.

Definition load_svg (tree : Element) : M (annotations xy) :=
  let point_annotations := findall_marked tree circle_el "circle_annotation" in
  let point_names := findall_marked_names tree circle_el "circle_annotation" in
  let pose_annotations := findall_marked tree line_el "pose_line_annotation" in
  let pose_names := findall_marked_names tree line_el "pose_line_annotation" in
  let region_annotations := findall_marked tree poly_el "region_annotation" in
  let region_names := findall_marked_names tree poly_el "region_annotation" in
  let path_groups := findall_groups_with tree path_el in
  let circle_groups := findall_groups_with tree circle_el in
  (* The point annotations we care about have just a dot and a text label *)
  let point_groups :=
    filter (fun g => length_is (children (snd g)) 2) circle_groups in
  (* Door annotations have a line, two circles and a text label *)
  let door_groups :=
    filter (fun g => length_is (children (snd g)) 4) circle_groups in
  let point_parents := parents_of tree point_annotations in
  points <- process_point_annotations (map snd point_names)
              (map snd point_annotations) point_parents ;;
  let pose_parents := parents_of tree pose_annotations in
  poses <- process_pose_annotations (map snd pose_names)
             (map snd pose_annotations) pose_parents ;;
  let region_parents := parents_of tree region_annotations in
  regions <- process_region_annotations (map snd region_names)
               (map snd region_annotations) region_parents ;;
  doors <- process_door_groups (map snd door_groups) ;;
  pp <- process_paths (map snd path_groups) ;;
  let (path_poses, path_regions) := pp in
  extra_points <- for_each point_group_step (map snd point_groups) [] ;;
  ret (points ++ extra_points, poses ++ path_poses, regions ++ path_regions, doors).

(** [name, (d_p1, d_p2), (p1, p2) = door]: the unpacking raises
    [ValueError] unless there are exactly two approach points.  The pair
    [(p1, p2)] that is stored is written as a two-element list. *)
Definition project_door (info : map_info) (door : door_t xy)
    : result (door_t W) :=
  let '(name, (d_p1, d_p2), approach) := door in
  match approach with
  | [p1; p2] =>
      Ok (name,
          (point_to_map_coords info d_p1, point_to_map_coords info d_p2),
          [point_to_map_coords info p1; point_to_map_coords info p2])
  | _ => Raise ValueError
  end.

(** Each of the four loops of the source replaces the element at every
    index of its list by the converted element, in increasing order of
    the index: a [map] over the list. *)
Definition transform_to_map_coords (info : map_info) (a : annotations xy)
    : result (annotations W) :=
  let '(points, poses, regions, doors) := a in
  let points' :=
    map (fun pt : point_t xy => (fst pt, point_to_map_coords info (snd pt))) points in
  let poses' :=
    map (fun ps : pose_t xy =>
           let '(name, p1, p2) := ps in
           (name, point_to_map_coords info p1, point_to_map_coords info p2))
        poses in
  let regions' :=
    map (fun rg : region_t xy => (fst rg, map (point_to_map_coords info) (snd rg)))
        regions in
  rbind (all_ok (map (project_door info) doors)) (fun doors' =>
  Ok (points', poses', regions', doors')).

Definition dec_is_nat (d : decimal) (n : nat) : bool :=
  mant d =? Z.of_nat n * 10 ^ Z.of_nat (expo d).

Definition shown (d : decimal) : Z * nat := (mant d, expo d).

Definition ori_is_zero (element : option Element) (problems : list problem)
    : result (list problem) :=
  rbind (attrib_of element) (fun a =>
  (* Annotation tool may not add this *)
  match get "x" a with
  | None => Ok problems
  | Some sx =>
      rbind (pyfloat (PStr sx)) (fun ori_x =>
      rbind (getitem a "y") (fun sy =>
      rbind (pyfloat (PStr sy)) (fun ori_y =>
      if negb (dec_is_nat ori_x 0) || negb (dec_is_nat ori_y 0)
      then Ok (problems ++ [OriginNotZero (shown ori_x) (shown ori_y)])
      else Ok problems)))
  end).

Definition dim_match (element : option Element) (w h : nat)
    (problems : list problem) : result (list problem) :=
  rbind (attrib_of element) (fun a =>
  (* Annotation tool may not add this *)
  match get "width" a with
  | None => Ok problems
  | Some sw =>
      rbind (pyfloat (PStr sw)) (fun e_w =>
      rbind (getitem a "height") (fun sh =>
      rbind (pyfloat (PStr sh)) (fun e_h =>
      if negb (dec_is_nat e_w w) || negb (dec_is_nat e_h h)
      then Ok (problems ++ [DimMismatch (shown e_w) (shown e_h) w h])
      else Ok problems)))
  end).

Definition str_of_nat (n : nat) : string :=
  NilZero.string_of_uint (Nat.to_uint n).

Definition check_svg_valid (tree : Element) (info : map_info)
    : result (list problem) :=
  (* Root of tree is the SVG element *)
  let svg := tree in
  let image := find_child image_el tree in
  rbind (getitem (attrib svg) "viewBox") (fun viewbox =>
  let target_viewbox :=
    ("0 0 " ++ str_of_nat (width info) ++ " " ++ str_of_nat (height info))%string in
  let problems :=
    if negb (String.eqb viewbox target_viewbox)
    then [ViewboxMismatch viewbox target_viewbox]
    else [] in
  rbind (dim_match (Some svg) (width info) (height info) problems) (fun problems =>
  rbind (ori_is_zero image problems) (fun problems =>
  dim_match image (width info) (height info) problems))).

(** The part of [load_map_from_yaml] that follows the reading of the
    files: [inl] is the result in pixel coordinates, [inr] the projected
    one. *)
Definition load_annotations (tree : Element) (map_metadata : map_info)
    (use_pixel_coords : bool) : M (annotations xy + annotations W) :=
  svg_problems <- lift (check_svg_valid tree map_metadata) ;;
  for_each (fun prob (_ : unit) => warn (Problem prob)) svg_problems tt ;;;
  annotations <- load_svg tree ;;
  if negb use_pixel_coords
  then
    projected <- lift (transform_to_map_coords map_metadata annotations) ;;
    ret (inr projected)
  else ret (inl annotations).

End Loader.

Unset Implicit Arguments.

(* ===================================================================== *)
(** ** Specification vocabulary *)
(* ===================================================================== *)

(** The words a pattern matches, read off the pattern (groups do not change
    the words). *)
Fixpoint lang (r : regex) (m : list ascii) : Prop :=
  match r with
  | Eps => m = []
  | Chr c => m = [c]
  | Cls p => exists c, m = [c] /\ p c = true
  | Cat r1 r2 => exists m1 m2, m = m1 ++ m2 /\ lang r1 m1 /\ lang r2 m2
  | Alt r1 r2 => lang r1 m \/ lang r2 m
  | Opt r1 => lang r1 m \/ m = []
  | Star p => forallb p m = true
  | Plus p => m <> [] /\ forallb p m = true
  | Group _ r1 => lang r1 m
  end.

Fixpoint groupless (r : regex) : bool :=
  match r with
  | Eps | Chr _ | Cls _ | Star _ | Plus _ => true
  | Cat r1 r2 | Alt r1 r2 => groupless r1 && groupless r2
  | Opt r1 => groupless r1
  | Group _ _ => false
  end.

Definition all_digits (s : string) : Prop :=
  forallb is_digit (list_ascii_of_string s) = true.

Definition is_sign_text (s : string) : Prop :=
  s = ""%string \/ s = "+"%string \/ s = "-"%string.

(** A signed decimal: an optional sign, then either digits, a point and at
    least one digit, or at least one digit. *)
Definition signed_decimal (s : string) : Prop :=
  exists sign ip fp : string,
    is_sign_text sign /\ all_digits ip /\ all_digits fp /\
    ((fp <> ""%string /\ s = (sign ++ ip ++ "." ++ fp)%string) \/
     (fp = ""%string /\ ip <> ""%string /\ s = (sign ++ ip)%string)).

(** Only characters of [cs] occur in [m]. *)
Definition chars_in (ok : ascii -> bool) (m : list ascii) : Prop :=
  forallb ok m = true.


Definition starts_unsigned (body : list ascii) : Prop :=
  match body with
  | c :: _ => is_sign c = false
  | [] => True
  end.

(** The coordinates a shape states itself: [float_s3] of two of its
    attributes, with no translation added. *)
Definition own_xy (attrs : list (string * string)) (kx ky : string) : result xy :=
  rbind (getitem attrs kx) (fun sx =>
  rbind (float_s3 (PStr sx)) (fun x =>
  rbind (getitem attrs ky) (fun sy =>
  rbind (float_s3 (PStr sy)) (fun y =>
  Ok (x, y))))).

(** The vertices a polygon states itself: its point list, rounded. *)
Definition own_vertices (region : Element) : result (list xy) :=
  rbind (getitem (attrib region) "points") (fun points =>
  all_ok (map parse_point (split_ws points))).

Definition points_of {P} (a : annotations P) : list (point_t P) :=
  let '(points, _, _, _) := a in points.
Definition poses_of {P} (a : annotations P) : list (pose_t P) :=
  let '(_, poses, _, _) := a in poses.
Definition regions_of {P} (a : annotations P) : list (region_t P) :=
  let '(_, _, regions, _) := a in regions.
Definition doors_of {P} (a : annotations P) : list (door_t P) :=
  let '(_, _, _, doors) := a in doors.

(** The projection of each kind of record by a conversion [conv] of its
    coordinates. *)
Definition map_point {P Q} (conv : P -> Q) (pt : point_t P) : point_t Q :=
  (fst pt, conv (snd pt)).
Definition map_pose {P Q} (conv : P -> Q) (ps : pose_t P) : pose_t Q :=
  (fst (fst ps), conv (snd (fst ps)), conv (snd ps)).
Definition map_region {P Q} (conv : P -> Q) (rg : region_t P) : region_t Q :=
  (fst rg, map conv (snd rg)).
Definition map_door {P Q} (conv : P -> Q) (d : door_t P) : door_t Q :=
  (fst (fst d), (conv (fst (snd (fst d))), conv (snd (snd (fst d)))),
   map conv (snd d)).
Definition map_annotations {P Q} (conv : P -> Q) (a : annotations P)
    : annotations Q :=
  (map (map_point conv) (points_of a), map (map_pose conv) (poses_of a),
   map (map_region conv) (regions_of a), map (map_door conv) (doors_of a)).

(** The names and the sizes of a result: everything but the coordinates. *)
Definition skeleton {P} (a : annotations P)
    : list pytext * list pytext * list (pytext * nat) * list (pytext * nat) :=
  (map fst (points_of a),
   map (fun ps : pose_t P => fst (fst ps)) (poses_of a),
   map (fun rg : region_t P => (fst rg, length (snd rg))) (regions_of a),
   map (fun d : door_t P => (fst (fst d), length (snd d))) (doors_of a)).

(** The door [d] was read from the group [g]: the transform of [g]
    resolves to [t], the first path child of [g] parses to the single line
    from [start] to [end_], and the threshold of [d] is that line, rounded
    and moved by [t]. *)
Definition threshold_from (parse_path : string -> result (list segment))
    (g : Element) (d : door_t xy) : Prop :=
  exists t path d_attr start end_,
    get_group_transform g = Ok t /\
    find_child path_el g = Some path /\
    get "d" (attrib path) = Some d_attr /\
    parse_path d_attr = Ok [Line start end_] /\
    snd (fst d) =
      ((round3 (fst start) + fst t, round3 (snd start) + snd t),
       (round3 (fst end_) + fst t, round3 (snd end_) + snd t)).

(** The circle carries the marker of the annotation tool. *)
Definition bears_marker (c : Element) : bool :=
  attr_is "class" "circle_annotation" ([], c).

(** The point [pt] was read by the heuristic strategy from the group [g]:
    the first circle below [g] carries no [class] attribute, and [pt] is its
    centre moved by the translation of [g]. *)
Definition unmarked_point_from (g : Element) (pt : point_t xy) : Prop :=
  exists c t own,
    find_descendant circle_el g = Some c /\
    get "class" (attrib c) = None /\
    get_group_transform g = Ok t /\
    own_xy (attrib c) "cx" "cy" = Ok own /\
    snd pt = offset t own.

(** A tool-tagged shape as the loops meet it: the shape, the [text] element
    zipped with it, and its parent group (or the [KeyError] of the lookup). *)
Definition tagged : Type := Element * Element * result Element.

Definition shape_of (x : tagged) : Element := fst (fst x).
Definition name_of (x : tagged) : pytext := text (snd (fst x)).

(** The point [pt] was read from the tagged circle [x]: the transform of
    its parent resolves to [t], and [pt] is the circle's centre moved by
    [t]. *)
Definition tagged_point_from (x : tagged) (pt : point_t xy) : Prop :=
  exists g t own,
    snd x = Ok g /\ get_group_transform g = Ok t /\
    own_xy (attrib (shape_of x)) "cx" "cy" = Ok own /\
    pt = (name_of x, offset t own).

Definition tagged_pose_from (x : tagged) (ps : pose_t xy) : Prop :=
  exists g t a b,
    snd x = Ok g /\ get_group_transform g = Ok t /\
    own_xy (attrib (shape_of x)) "x1" "y1" = Ok a /\
    own_xy (attrib (shape_of x)) "x2" "y2" = Ok b /\
    ps = (name_of x, offset t a, offset t b).

(** The region [rg] was read from the tagged polygon [x]: the transform of
    its parent resolves, and the vertices of [rg] are the polygon's own
    vertices, in their order, all moved by one translation [t]. *)
Definition tagged_region_from (x : tagged) (rg : region_t xy) : Prop :=
  exists g t0 t own,
    snd x = Ok g /\ get_group_transform g = Ok t0 /\
    own_vertices (shape_of x) = Ok own /\
    rg = (name_of x, map (offset t) own).

(** The pending regions of the tagged loop hold the polygons' own vertices. *)
Definition pending_from (x : tagged) (rg : region_t xy) : Prop :=
  exists g t0 own,
    snd x = Ok g /\ get_group_transform g = Ok t0 /\
    own_vertices (shape_of x) = Ok own /\ rg = (name_of x, own).

(** The region [rg] was read from the path group [g]: the path below [g]
    parses to segments that are all lines, not exactly one of them, and the
    vertices of [rg] are the start points of the segments, in their order,
    rounded ([path_pending_from]) and then all moved by one translation
    ([path_region_from]). *)
Definition path_pending_from (parse_path : string -> result (list segment))
    (g : Element) (rg : region_t xy) : Prop :=
  exists path d segs,
    find_descendant path_el g = Some path /\
    get "d" (attrib path) = Some d /\
    parse_path d = Ok segs /\
    forallb is_line segs = true /\ length segs <> 1%nat /\
    snd rg = map (fun l => round_point (seg_start l)) segs.

Definition path_region_from (parse_path : string -> result (list segment))
    (g : Element) (rg : region_t xy) : Prop :=
  exists path d segs t,
    find_descendant path_el g = Some path /\
    get "d" (attrib path) = Some d /\
    parse_path d = Ok segs /\
    forallb is_line segs = true /\ length segs <> 1%nat /\
    snd rg = map (fun l => offset t (round_point (seg_start l))) segs.

(** Where a region of the result of [load_svg] comes from: a marked polygon
    of the document, or a path group of the document. *)
Definition region_source (parse_path : string -> result (list segment))
    (tree : Element) (rg : region_t xy) : Prop :=
  (exists polygon own t,
      In polygon (map snd (findall_marked tree poly_el "region_annotation")) /\
      own_vertices polygon = Ok own /\
      snd rg = map (offset t) own) \/
  (exists g,
      In g (map snd (findall_groups_with tree path_el)) /\
      path_region_from parse_path g rg).

(* ===================================================================== *)
(** ** Sample documents *)
(* ===================================================================== *)

Definition el (t : string) (attrs : list (string * string))
    (cs : list Element) : Element :=
  Elem t attrs None cs.

Definition label (name : string) : Element := Elem text_el [] (Some name) [].

Definition svg_root (cs : list Element) : Element :=
  el svg_el [("viewBox", "0 0 100 100")]%string cs.

Definition g_with_transform (t : string) : Element :=
  el group_el [("transform", t)]%string [].

Definition int (n : Z) : decimal := Decimal n 0.

(** [svgpathtools.parse_path] on the few path strings the samples use. *)
Definition sample_parse_path (d : string) : result (list segment) :=
  if String.eqb d "" then Ok []
  else if String.eqb d "M 0,0 L 0,5"
  then Ok [Line (int 0, int 0) (int 0, int 5)]
  else if String.eqb d "M 0,0 L 10,0 L 10,10"
  then Ok [Line (int 0, int 0) (int 10, int 0); Line (int 10, int 0) (int 10, int 10)]
  else Raise ValueError.

(** <g transform="translate(5,5)">
      <circle class="circle_annotation" cx="10" cy="20"/><text>charger</text>
    </g> *)
Definition marked_circle : Element :=
  el circle_el [("class", "circle_annotation"); ("cx", "10"); ("cy", "20")]%string [].
Definition moved_group : Element :=
  el group_el [("transform", "translate(5,5)")]%string [marked_circle; label "charger"].
Definition moved_point_doc : Element := svg_root [moved_group].

(** The same group under a translation followed by a scaling. *)
Definition chained_group : Element :=
  el group_el [("transform", "translate(1,2) scale(2)")]%string
     [marked_circle; label "charger"].
Definition chained_doc : Element := svg_root [chained_group].

(** <g><path d=""/><text>hall</text></g> *)
Definition empty_path_group : Element :=
  el group_el [] [el path_el [("d", "")]%string []; label "hall"].

(** <svg viewBox="0 0 10 10"/>: a document without an image element. *)
Definition no_image_doc : Element :=
  el svg_el [("viewBox", "0 0 10 10")]%string [].

(** <g><circle cx="1" cy="2"/><circle cx="3" cy="4"/></g>: two children, one
    of them a circle, and no label. *)
Definition unlabelled_point_group : Element :=
  el group_el []
     [el circle_el [("cx", "1"); ("cy", "2")]%string [];
      el circle_el [("cx", "3"); ("cy", "4")]%string []].
Definition unlabelled_point_doc : Element := svg_root [unlabelled_point_group].

(** <g><path d="M 0,0 L 0,5"/><circle .../><circle .../><rect/></g>: four
    children, and no label. *)
Definition unlabelled_door_group : Element :=
  el group_el []
     [el path_el [("d", "M 0,0 L 0,5")]%string [];
      el circle_el [("cx", "-2"); ("cy", "2")]%string [];
      el circle_el [("cx", "2"); ("cy", "2")]%string [];
      el "{http://www.w3.org/2000/svg}rect" [] []].
Definition unlabelled_door_doc : Element := svg_root [unlabelled_door_group].

(** A door group whose two circles carry the marker of the annotation tool. *)
Definition marked_door_group : Element :=
  el group_el []
     [el path_el [("d", "M 0,0 L 0,5")]%string [];
      el circle_el [("class", "circle_annotation"); ("cx", "-2"); ("cy", "2")]%string [];
      el circle_el [("class", "circle_annotation"); ("cx", "2"); ("cy", "2")]%string [];
      label "door1"].
Definition marked_door_doc : Element := svg_root [marked_door_group].

(** A door group drawn in a generic editor, moved by (5,5). *)
Definition plain_door_group : Element :=
  el group_el [("transform", "translate(5,5)")]%string
     [el path_el [("d", "M 0,0 L 0,5")]%string [];
      el circle_el [("cx", "-2"); ("cy", "2")]%string [];
      el circle_el [("cx", "2"); ("cy", "2")]%string [];
      label "door1"].

(** A two-child group with a marked circle and a label. *)
Definition marked_point_group : Element :=
  el group_el [] [marked_circle; label "charger"].

(** <g><polygon class="region_annotation" points="0,0 10,0"/><text>strip</text></g> *)
Definition two_point_polygon : Element :=
  el poly_el [("class", "region_annotation"); ("points", "0,0 10,0")]%string [].
Definition two_point_doc : Element :=
  svg_root [el group_el [] [two_point_polygon; label "strip"]].

(** <g><polygon class="region_annotation" points="0,0 10,0 10,10 0,10"/>
       <text>kitchen</text></g> *)
Definition kitchen_polygon : Element :=
  el poly_el [("class", "region_annotation"); ("points", "0,0 10,0 10,10 0,10")]%string [].
Definition kitchen_group : Element :=
  el group_el [("transform", "translate(5,5)")]%string [kitchen_polygon; label "kitchen"].
Definition kitchen_doc : Element := svg_root [kitchen_group].

(** <svg><image/></svg>: a document whose root has no viewBox. *)
Definition no_viewbox_doc : Element :=
  el svg_el [] [el image_el [] []].

(** <g><path d="M 0,0 L 0,5"/><rect/></g>: a path group without a label. *)
Definition unlabelled_path_group : Element :=
  el group_el []
     [el path_el [("d", "M 0,0 L 0,5")]%string [];
      el "{http://www.w3.org/2000/svg}rect" [] []].

(** <g transform="translate(5,5)"><circle cx="0" cy="0"/><text>dock</text></g> *)
Definition dock_group : Element :=
  el group_el [("transform", "translate(5,5)")]%string
     [el circle_el [("cx", "0"); ("cy", "0")]%string []; label "dock"].

(** A document with an image and one annotation of each kind. *)
Definition full_doc : Element :=
  svg_root [el image_el [("x", "0"); ("y", "0"); ("width", "100"); ("height", "100")]%string [];
            moved_group; kitchen_group; plain_door_group;
            el group_el [] [el path_el [("d", "M 0,0 L 0,5")]%string []; label "entry"]].

(** A conversion that flips the vertical axis of a map 100 pixels high. *)
Definition sample_conv (info : unit) (p : xy) : xy := (fst p, 100000 - snd p).

Definition sample_size (info : unit) : nat := 100.

(** <g><path d="M 0,0 L 10,0 L 10,10"/><text>corner</text></g> *)
Definition corner_group : Element :=
  el group_el [] [el path_el [("d", "M 0,0 L 10,0 L 10,10")]%string []; label "corner"].

(* ===================================================================== *)
(** ** Further vocabulary *)
(* ===================================================================== *)

(** The text [translate(A,B)] followed by [tail]. *)
Definition translate_text (A B tail : string) : string :=
  ("translate(" ++ A ++ "," ++ B ++ ")" ++ tail)%string.



Definition is_viewbox_mismatch (p : problem) : bool :=
  match p with
  | ViewboxMismatch _ _ => true
  | _ => false
  end.

(** The visible-area bounds [check_svg_valid] expects. *)
Definition target_viewbox (w h : nat) : string :=
  ("0 0 " ++ str_of_nat w ++ " " ++ str_of_nat h)%string.

(** <svg viewBox="0 0 50 50" width="100" height="100"><image x="1" y="0"/></svg> *)
Definition mismatched_doc : Element :=
  el svg_el [("viewBox", "0 0 50 50"); ("width", "100"); ("height", "100")]%string
     [el image_el [("x", "1"); ("y", "0")]%string []].

(** <g><path d="M 0,0 L 0,5"/><circle/><text>door2</text><rect/></g>: four
    children, one circle only. *)
Definition one_circle_door_group : Element :=
  el group_el []
     [el path_el [("d", "M 0,0 L 0,5")]%string [];
      el circle_el [("cx", "-2"); ("cy", "2")]%string [];
      label "door2";
      el "{http://www.w3.org/2000/svg}rect" [] []].

(** A door group whose path has two segments. *)
Definition bent_door_group : Element :=
  el group_el []
     [el path_el [("d", "M 0,0 L 10,0 L 10,10")]%string [];
      el circle_el [("cx", "-2"); ("cy", "2")]%string [];
      el circle_el [("cx", "2"); ("cy", "2")]%string [];
      label "door3"].

(** A door group under a rotation. *)
Definition rotated_door_group : Element :=
  el group_el [("transform", "rotate(45)")]%string
     [el path_el [("d", "M 0,0 L 0,5")]%string [];
      el circle_el [("cx", "-2"); ("cy", "2")]%string [];
      el circle_el [("cx", "2"); ("cy", "2")]%string [];
      label "door4"].

(** <g transform="scale(2)"><circle cx="1" cy="2"/><text>spot</text></g> *)
Definition scaled_group : Element :=
  el group_el [("transform", "scale(2)")]%string
     [el circle_el [("cx", "1"); ("cy", "2")]%string []; label "spot"].

(** The outcome [r] of a loop body run from the empty list, seen from the
    list [acc]. *)
Definition appended {B} (acc : list B) (r : result (list B) * list warning)
    : result (list B) * list warning :=
  match r with
  | (Ok new, w') => (Ok (acc ++ new), w')
  | (Raise e, w') => (Raise e, w')
  end.

(** The pose [ps] was read from the path group [g]: [g] has two children,
    a label and a transform that resolves to [t]; the path below [g] parses
    to the single line from [start] to [end_]; and [ps] is that line,
    rounded and moved by [t], under the label's text. *)
Definition path_pose_from (parse_path : string -> result (list segment))
    (g : Element) (ps : pose_t xy) : Prop :=
  exists label_ t path d start end_,
    length (children g) = 2%nat /\
    get_text_from_group g = Some label_ /\
    get_group_transform g = Ok t /\
    find_descendant path_el g = Some path /\
    get "d" (attrib path) = Some d /\
    parse_path d = Ok [Line start end_] /\
    ps = (text label_, offset t (round_point start), offset t (round_point end_)).

(** <g><path d="M 0,0 L 0,5"/><text>entry</text></g> *)
Definition entry_group : Element :=
  el group_el [] [el path_el [("d", "M 0,0 L 0,5")]%string []; label "entry"].

(** A group with a path and three children. *)
Definition crowded_group : Element :=
  el group_el []
     [el path_el [("d", "M 0,0 L 0,5")]%string []; label "a"; label "b"].

(** The translation a tagged shape asks for: that of its parent, or (0, 0)
    when the parent's transform does not resolve. *)
Definition resolved_or_zero (x : tagged) : xy :=
  match snd x with
  | Ok g =>
      match get_group_transform g with
      | Ok t => t
      | Raise _ => (0, 0)
      end
  | Raise _ => (0, 0)
  end.

(** The value of the variable [translate] of [process_region_annotations]
    when its loop over [xs] has ended: the one the last turn has left. *)
Definition loop_translate (xs : list tagged) : xy :=
  fold_left (fun _ x => resolved_or_zero x) xs (0, 0).

(** <g><polygon class="region_annotation" points="0,0 4,0 4,4"/><text>yard</text></g> *)
Definition yard_polygon : Element :=
  el poly_el [("class", "region_annotation"); ("points", "0,0 4,0 4,4")]%string [].
Definition yard_group : Element :=
  el group_el [] [yard_polygon; label "yard"].


Definition blank (s : string) : Prop :=
  forallb is_space (list_ascii_of_string s) = true.

(** <polygon class="region_annotation" points="  "/> *)
Definition blank_polygon : Element :=
  el poly_el [("class", "region_annotation"); ("points", "  ")]%string [].

Definition two_approaches (d : door_t xy) : Prop := length (snd d) = 2%nat.

(** Where a door of the result of [load_svg] comes from. *)
Definition door_source (parse_path : string -> result (list segment))
    (tree : Element) (d : door_t xy) : Prop :=
  two_approaches d /\
  exists g,
    In g (map snd (findall_groups_with tree circle_el)) /\
    length (children g) = 4%nat /\
    threshold_from parse_path g d.


(** A door with one approach point only, as no run of [load_svg] makes it. *)
Definition lame_door : door_t xy :=
  (Some "lame"%string, ((0, 0), (0, 5000)), [(1000, 1000)]).

(* ===================================================================== *)
(** ** Storing doors in the knowledge base ([populate_doors]) *)
(* ===================================================================== *)

(** [str(name)] for a name that may be [None]. *)
Definition py_str (name : pytext) : string :=
  match name with
  | Some s => s
  | None => "None"%string
  end.

Section KnowledgeBase.

(** The map object of the knowledge base and its entities belong to the
    bindings of the knowledge base, which are not part of the source at
    hand: they are parameters.  [Map] is the state of the map; the methods
    return the entity and the new state. *)
Variable Map Door Point C : Type.
Variable add_door : pytext -> C -> C -> C -> C -> Map -> Door * Map.
Variable door_is_valid : Door -> Map -> bool.
Variable add_point : string -> C -> C -> Map -> Point * Map.
Variable point_is_valid : Point -> Map -> bool.
Variable add_attribute : Point -> string -> Door -> Map -> Map.

(** The two warnings of [populate_doors], with the values formatted into
    them, in the order of the source. *)
Inductive populate_warning : Type :=
| FailedDoor (name : pytext) (a b c d : C)
    (* "Failed to add door '{}': ({},{}) ({},{})" *)
| FailedApproach (i : nat) (name : pytext) (x y : C).
    (* "Failed to add approach {} for door '{}': {}, {}" *)

(** [for i, (x, y) in enumerate(approach_points)], from index [i] on. *)
Fixpoint approach_loop (name : pytext) (door : Door) (i : nat)
    (approach_points : list (C * C)) (map : Map) (log : list populate_warning)
    (point_count : nat) : Map * list populate_warning * nat :=
  match approach_points with
  | [] => (map, log, point_count)
  | (x, y) :: rest =>
      let (point, map1) :=
        add_point (py_str name ++ "_approach" ++ str_of_nat i)%string x y map in
      if negb (point_is_valid point map1)
      then approach_loop name door (S i) rest map1
             (log ++ [FailedApproach i name x y]) point_count
      else
        let map2 := add_attribute point "approach_to" door map1 in
        approach_loop name door (S i) rest map2 log (S point_count)
  end.

Fixpoint doors_loop (doors : list (door_t (C * C))) (map : Map)
    (log : list populate_warning) (door_count point_count : nat)
    : nat * nat * Map * list populate_warning :=
  match doors with
  | [] => (door_count, point_count, map, log)
  | (name, ((x_0, y_0), (x_1, y_1)), approach_points) :: rest =>
      let (door, map1) := add_door name x_0 y_0 x_1 y_1 map in
      if negb (door_is_valid door map1)
      then doors_loop rest map1 (log ++ [FailedDoor name x_0 y_0 x_0 y_1])
             door_count point_count
      else
        let '(map2, log2, point_count2) :=
          approach_loop name door 0 approach_points map1 log point_count in
        doors_loop rest map2 log2 (S door_count) point_count2
  end.

(** Returns [(door_count, point_count)], with the final state of the map
    and the warnings. *)
Definition populate_doors (doors : list (door_t (C * C))) (map : Map)
    : nat * nat * Map * list populate_warning :=
  doors_loop doors map [] 0%nat 0%nat.

Definition is_failed_door (msg : populate_warning) : bool :=
  match msg with
  | FailedDoor _ _ _ _ _ => true
  | _ => false
  end.

Definition failed_doors (log : list populate_warning) : nat :=
  length (filter is_failed_door log).

Definition failed_approaches (log : list populate_warning) : nat :=
  length (filter (fun msg => negb (is_failed_door msg)) log).

End KnowledgeBase.

(** A knowledge base that keeps the names it is given and refuses a name it
    already has. *)
Definition sample_add (name : string) (names : list string) : bool * list string :=
  if existsb (String.eqb name) names then (false, names) else (true, name :: names).

Definition sample_doors : list (door_t xy) :=
  [(Some "d"%string, ((0, 0), (0, 5000)), [(1000, 1000); (2000, 2000)]);
   (Some "d"%string, ((0, 0), (0, 5000)), [(1000, 1000); (2000, 2000)]);
   (Some "e"%string, ((0, 0), (0, 5000)), [(1000, 1000); (2000, 2000)])].

Definition sample_populate
    : nat * nat * list string * list (populate_warning Z) :=
  populate_doors (list string) bool bool Z
    (fun name _ _ _ _ names => sample_add (py_str name) names)
    (fun door _ => door)
    (fun name _ _ names => sample_add name names)
    (fun point _ => point)
    (fun _ _ _ names => names)
    sample_doors [].

(** The value of the variable [translate] of [process_paths] after the turn
    for the group [g], from its value [cur] before: a group that is passed
    over before the assignment leaves it; the others set it to their
    translation, or leave it at (0, 0) when the transform does not
    resolve. *)
Definition translate_after (cur : xy) (g : Element) : xy :=
  if negb (length_is (children g) 2) then cur
  else
    match get_text_from_group g with
    | None => cur
    | Some _ =>
        match get_group_transform g with
        | Ok t => t
        | Raise _ => (0, 0)
        end
    end.

Definition path_loop_translate (groups : list Element) : xy :=
  fold_left translate_after groups (0, 0).

(** The path group of [corner_group], moved by (5,5). *)
Definition moved_corner_group : Element :=
  el group_el [("transform", "translate(5,5)")]%string
     [el path_el [("d", "M 0,0 L 10,0 L 10,10")]%string []; label "corner"].

(** A door group without a path. *)
Definition pathless_door_group : Element :=
  el group_el []
     [el "{http://www.w3.org/2000/svg}rect" [] [];
      el circle_el [("cx", "-2"); ("cy", "2")]%string [];
      el circle_el [("cx", "2"); ("cy", "2")]%string [];
      label "door5"].

(** A marked circle without [cy]. *)
Definition half_circle : Element :=
  el circle_el [("class", "circle_annotation"); ("cx", "10")]%string [].

(* ===================================================================== *)
(** ** Facts about the matcher *)
(* ===================================================================== *)

Lemma orelse_some {A} (x y : option A) v :
  orelse x y = Some v -> x = Some v \/ (x = None /\ y = Some v).
Proof. destruct x; simpl; intros H; [left | right]; auto. Qed.


Lemma star_sound {A} p s (k : list ascii -> list ascii -> option A) x :
  star p s k = Some x ->
  exists m rest, s = m ++ rest /\ forallb p m = true /\ k m rest = Some x.
Proof.
  revert k. induction s as [| c s IH]; intros k H; simpl in H.
  - exists [], []. auto.
  - destruct (p c) eqn:Hp.
    + apply orelse_some in H. destruct H as [H | [_ H]].
      * apply IH in H. destruct H as (m & rest & -> & Hm & Hk).
        exists (c :: m), rest. simpl. rewrite Hp, Hm. auto.
      * exists [], (c :: s). auto.
    + exists [], (c :: s). auto.
Qed.


Lemma rmatch_sound {A} r :
  groupless r = true ->
  forall s caps (k : cont A) x,
    rmatch r s caps k = Some x ->
    exists m rest, s = m ++ rest /\ lang r m /\ k m rest caps = Some x.
Proof.
  induction r as [| c | p | r1 IH1 r2 IH2 | r1 IH1 r2 IH2 | r1 IH1 | p | p | n r1 IH1];
    simpl; intros G s caps k x H; try discriminate.
  - exists [], s. auto.
  - destruct s as [| c' s]; try discriminate.
    destruct (Ascii.eqb c c') eqn:E; try discriminate.
    apply Ascii.eqb_eq in E. subst c'. exists [c], s. auto.
  - destruct s as [| c' s]; try discriminate.
    destruct (p c') eqn:E; try discriminate.
    exists [c'], s. split; [reflexivity | split; [exists c'; auto | assumption]].
  - apply andb_true_iff in G. destruct G as [G1 G2].
    apply (IH1 G1) in H. destruct H as (m1 & rest1 & -> & L1 & H).
    apply (IH2 G2) in H. destruct H as (m2 & rest2 & -> & L2 & H).
    exists (m1 ++ m2), rest2. rewrite app_assoc. split; [reflexivity |].
    split; [exists m1, m2; auto | assumption].
  - apply andb_true_iff in G. destruct G as [G1 G2].
    apply orelse_some in H. destruct H as [H | [_ H]].
    + apply (IH1 G1) in H. destruct H as (m & rest & -> & L & H).
      exists m, rest. auto.
    + apply (IH2 G2) in H. destruct H as (m & rest & -> & L & H).
      exists m, rest. auto.
  - apply orelse_some in H. destruct H as [H | [_ H]].
    + apply (IH1 G) in H. destruct H as (m & rest & -> & L & H).
      exists m, rest. auto.
    + exists [], s. auto.
  - apply star_sound in H. destruct H as (m & rest & -> & Hm & H).
    exists m, rest. auto.
  - destruct s as [| c' s]; try discriminate.
    destruct (p c') eqn:E; try discriminate.
    apply star_sound in H. destruct H as (m & rest & -> & Hm & H).
    exists (c' :: m), rest. simpl. rewrite E, Hm.
    split; [reflexivity | split; [split; [discriminate | reflexivity] | assumption]].
Qed.



Lemma list_ascii_of_string_app a b :
  list_ascii_of_string (a ++ b)%string =
  list_ascii_of_string a ++ list_ascii_of_string b.
Proof. induction a as [| c a IH]; simpl; [reflexivity | now rewrite IH]. Qed.







Lemma string_nonempty s : s <> ""%string -> list_ascii_of_string s <> [].
Proof. destruct s; simpl; [intros H; now elim H | discriminate]. Qed.




(* ===================================================================== *)
(** ** Facts about [float] on decimal literals *)
(* ===================================================================== *)

Lemma digit_is_no_sign c : is_digit c = true -> is_sign c = false.
Proof.
  intros H. unfold is_sign.
  destruct (Ascii.eqb c "-") eqn:E1.
  { apply Ascii.eqb_eq in E1. subst c. discriminate. }
  destruct (Ascii.eqb c "+") eqn:E2.
  { apply Ascii.eqb_eq in E2. subst c. discriminate. }
  reflexivity.
Qed.

Lemma digit_is_no_point c : is_digit c = true -> Ascii.eqb c "." = false.
Proof.
  intros H. destruct (Ascii.eqb c ".") eqn:E; [| reflexivity].
  apply Ascii.eqb_eq in E. subst c. discriminate.
Qed.

Lemma strip_sign_unsigned body :
  starts_unsigned body -> strip_sign body = (false, body).
Proof.
  destruct body as [| c body]; simpl; [reflexivity |].
  unfold is_sign. intros H. apply orb_false_iff in H. destruct H as [-> ->].
  reflexivity.
Qed.

Lemma strip_sign_signed sign body :
  is_sign_text sign -> starts_unsigned body ->
  exists neg, strip_sign (list_ascii_of_string sign ++ body) = (neg, body).
Proof.
  intros [-> | [-> | ->]] H.
  - exists false. now apply strip_sign_unsigned.
  - exists false. reflexivity.
  - exists true. reflexivity.
Qed.

Lemma span_digits ip rest :
  forallb is_digit ip = true ->
  match rest with c :: _ => is_digit c = false | [] => True end ->
  span is_digit (ip ++ rest) = (ip, rest).
Proof.
  intros Hi Hr. induction ip as [| c ip IH]; simpl in *.
  - destruct rest as [| c rest]; simpl; [reflexivity | now rewrite Hr].
  - apply andb_true_iff in Hi. destruct Hi as [-> Hi]. now rewrite (IH Hi).
Qed.

Lemma parse_decimal_integer s neg ip :
  strip_sign s = (neg, ip) -> forallb is_digit ip = true -> ip <> [] ->
  parse_decimal s = Some (Decimal (apply_sign neg (digits_val ip)) 0).
Proof.
  intros Hs Hi Hne. unfold parse_decimal. rewrite Hs.
  rewrite <- (app_nil_r ip) at 1. rewrite (span_digits ip [] Hi I).
  destruct ip; [now elim Hne | reflexivity].
Qed.

Lemma parse_decimal_fraction s neg ip fp :
  strip_sign s = (neg, ip ++ "."%char :: fp) ->
  forallb is_digit ip = true -> forallb is_digit fp = true -> fp <> [] ->
  parse_decimal s =
  Some (Decimal (apply_sign neg (digits_val (ip ++ fp))) (length fp)).
Proof.
  intros Hs Hi Hf Hne. unfold parse_decimal. rewrite Hs.
  rewrite (span_digits ip ("."%char :: fp) Hi eq_refl).
  rewrite Ascii.eqb_refl, Hf. simpl.
  destruct fp as [| c fp]; [now elim Hne |].
  simpl length. rewrite Nat.add_succ_r. reflexivity.
Qed.

Lemma parse_decimal_signed s :
  signed_decimal s -> exists d, parse_decimal (list_ascii_of_string s) = Some d.
Proof.
  intros (sign & ip & fp & Hs & Hi & Hf & [[Hne ->] | (-> & Hne & ->)]);
    repeat rewrite list_ascii_of_string_app; unfold all_digits in *.
  - destruct (strip_sign_signed sign
                (list_ascii_of_string ip ++ "."%char :: list_ascii_of_string fp) Hs)
      as [neg Hstrip].
    { destruct (list_ascii_of_string ip) as [| c l] eqn:E; simpl; [reflexivity |].
      simpl in Hi. apply andb_true_iff in Hi. now apply digit_is_no_sign. }
    eexists. simpl list_ascii_of_string.
    apply (parse_decimal_fraction _ neg _ _ Hstrip Hi Hf).
    now apply string_nonempty.
  - destruct (strip_sign_signed sign (list_ascii_of_string ip) Hs) as [neg Hstrip].
    { destruct (list_ascii_of_string ip) as [| c l] eqn:E; simpl; [reflexivity |].
      simpl in Hi. apply andb_true_iff in Hi. now apply digit_is_no_sign. }
    eexists. apply (parse_decimal_integer _ neg _ Hstrip Hi).
    now apply string_nonempty.
Qed.

Lemma float_s3_signed s :
  signed_decimal s ->
  exists d, pyfloat (PStr s) = Ok d /\ float_s3 (PStr s) = Ok (round3 d).
Proof.
  intros H. destruct (parse_decimal_signed s H) as [d Hd].
  exists d. unfold float_s3, pyfloat. rewrite Hd. auto.
Qed.


Example sample_moved_point :
  load_svg sample_parse_path moved_point_doc [] =
  (Ok ([(Some "charger"%string, (15000, 25000))], [], [], []), []).
Proof. vm_compute. reflexivity. Qed.

Example sample_marked_door :
  load_svg sample_parse_path marked_door_doc [] =
  (Ok ([(Some "door1"%string, (-2000, 2000))], [], [],
       [(Some "door1"%string, ((0, 0), (0, 5000)), [(-2000, 2000); (2000, 2000)])]),
   []).
Proof. vm_compute. reflexivity. Qed.

Example sample_kitchen :
  load_svg sample_parse_path kitchen_doc [] =
  (Ok ([], [],
       [(Some "kitchen"%string,
         [(5000, 5000); (15000, 5000); (15000, 15000); (5000, 15000)])], []),
   []).
Proof. vm_compute. reflexivity. Qed.

Example sample_corner :
  process_paths sample_parse_path [corner_group] [] =
  (Ok ([], [(Some "corner"%string, [(0, 0); (10000, 0)])]), []).
Proof. vm_compute. reflexivity. Qed.

(* ===================================================================== *)
(** ** Facts about the monad and the loops *)
(* ===================================================================== *)

Lemma rbind_ok {A B} (r : result A) (f : A -> result B) b :
  rbind r f = Ok b -> exists a, r = Ok a /\ f a = Ok b.
Proof. destruct r as [a | e]; simpl; intros H; [eauto | discriminate]. Qed.

Lemma bind_ok {A B} (m : M A) (f : A -> M B) w b w' :
  bind m f w = (Ok b, w') ->
  exists a w1, m w = (Ok a, w1) /\ f a w1 = (Ok b, w').
Proof.
  unfold bind. destruct (m w) as [[a | e] w1]; intros H; [eauto | discriminate].
Qed.

Lemma lift_ok {A} (r : result A) w a w' :
  lift r w = (Ok a, w') -> r = Ok a /\ w' = w.
Proof. unfold lift. intros H. injection H as -> ->. auto. Qed.

Lemma ret_ok {A} (a b : A) w w' : ret a w = (Ok b, w') -> b = a /\ w' = w.
Proof. unfold ret. intros H. injection H as -> ->. auto. Qed.

Lemma warn_then_ok {A} msg (a b : A) w w' :
  bind (warn msg) (fun _ => ret a) w = (Ok b, w') -> b = a /\ w' = w ++ [msg].
Proof. unfold bind, warn, ret. intros H. injection H as -> ->. auto. Qed.

(** A guarded call that comes back with a value has not raised, given that
    the handler never produces a value. *)
Lemma try_some {A} (r : result A) (h : M (option A)) w v w' :
  (forall w0 x w1, h w0 = (Ok x, w1) -> x = None) ->
  try_except_RuntimeError (bind (lift r) (fun x => ret (Some x))) h w
    = (Ok (Some v), w') ->
  r = Ok v /\ w' = w.
Proof.
  intros Hh. unfold try_except_RuntimeError, bind, lift, ret.
  destruct r as [a | e].
  - intros H. injection H as -> ->. auto.
  - destruct e; try discriminate.
    intros H. apply Hh in H. discriminate.
Qed.

Lemma try_none {A} (r : result A) (h : M (option A)) w w' :
  try_except_RuntimeError (bind (lift r) (fun x => ret (Some x))) h w
    = (Ok None, w') ->
  r = Raise RuntimeError /\ h w = (Ok None, w').
Proof.
  unfold try_except_RuntimeError, bind, lift, ret.
  destruct r as [a | e]; [discriminate |].
  destruct e; try discriminate. auto.
Qed.

Lemma complaint_is_none (g : Element) (complaint : string -> warning) w0 x w1 :
  bind (lift (getitem (attrib g) "transform"))
       (fun t => bind (warn (complaint t)) (fun _ => ret (@None xy))) w0
    = (Ok x, w1) ->
  x = None.
Proof.
  intros H. apply bind_ok in H. destruct H as (t & w2 & _ & H).
  apply warn_then_ok in H. tauto.
Qed.

Lemma resolve_transform_some g complaint w t w' :
  resolve_transform g complaint w = (Ok (Some t), w') ->
  get_group_transform g = Ok t /\ w' = w.
Proof.
  unfold resolve_transform. apply try_some. apply complaint_is_none.
Qed.

Lemma resolve_transform_none g complaint w w' :
  resolve_transform g complaint w = (Ok None, w') ->
  get_group_transform g = Raise RuntimeError.
Proof. unfold resolve_transform. intros H. now apply try_none in H. Qed.

(** Loop invariants: what holds of the state before the loop and is kept by
    every turn that does not raise, holds of the state after the loop. *)
Lemma for_each_inv {A S} (body : A -> S -> M S) (P : S -> Prop) xs :
  (forall x s w s' w', In x xs -> P s -> body x s w = (Ok s', w') -> P s') ->
  forall s w s' w', P s -> for_each body xs s w = (Ok s', w') -> P s'.
Proof.
  induction xs as [| x xs IH]; intros Hbody s w s' w' Hs H; simpl in H.
  - apply ret_ok in H. destruct H as [-> _]. assumption.
  - apply bind_ok in H. destruct H as (s1 & w1 & H1 & H).
    apply (IH (fun y s0 w0 s0' w0' Hy => Hbody y s0 w0 s0' w0' (or_intror Hy))
              s1 w1 s' w'); [| assumption].
    apply (Hbody x s w s1 w1); [now left | assumption | assumption].
Qed.

Lemma read_xy_own attrs kx ky t :
  read_xy attrs kx ky t = rbind (own_xy attrs kx ky) (fun p => Ok (offset t p)).
Proof.
  unfold read_xy, own_xy.
  destruct (getitem attrs kx) as [sx | e]; [simpl | reflexivity].
  destruct (float_s3 (PStr sx)) as [x | e]; [simpl | reflexivity].
  destruct (getitem attrs ky) as [sy | e]; [simpl | reflexivity].
  destruct (float_s3 (PStr sy)) as [y | e]; reflexivity.
Qed.

Lemma read_xy_ok attrs kx ky t p :
  read_xy attrs kx ky t = Ok p ->
  exists own, own_xy attrs kx ky = Ok own /\ p = offset t own.
Proof.
  rewrite read_xy_own. intros H. apply rbind_ok in H.
  destruct H as (own & Hown & H). injection H as <-. eauto.
Qed.

Lemma offset_zero p : offset (0, 0) p = p.
Proof. destruct p as [x y]. unfold offset. simpl. now rewrite !Z.add_0_r. Qed.

Lemma read_circles_ok circles t ps :
  read_circles circles t = Ok ps ->
  Forall2 (fun circle p =>
             exists own, own_xy (attrib circle) "cx" "cy" = Ok own /\ p = offset t own)
          circles ps.
Proof.
  revert ps. induction circles as [| c cs IH]; intros ps H; simpl in H.
  - injection H as <-. constructor.
  - apply rbind_ok in H. destruct H as (p & Hp & H).
    apply rbind_ok in H. destruct H as (ps' & Hps & H). injection H as <-.
    constructor; [now apply read_xy_ok | now apply IH].
Qed.

Lemma extract_line_ok parse_path path t line :
  extract_line_from_path parse_path path (Some t) = Ok line ->
  exists p d start end_,
    path = Some p /\ get "d" (attrib p) = Some d /\
    parse_path d = Ok [Line start end_] /\
    line = (offset t (round_point start), offset t (round_point end_)).
Proof.
  unfold extract_line_from_path. intros H.
  apply rbind_ok in H. destruct H as (a & Ha & H).
  destruct path as [p |]; [| discriminate]. injection Ha as <-.
  apply rbind_ok in H. destruct H as (d & Hd & H).
  unfold getitem in Hd. destruct (get "d" (attrib p)) as [d' |] eqn:Ed; [| discriminate].
  injection Hd as ->.
  apply rbind_ok in H. destruct H as (geom & Hg & H).
  destruct geom as [| l [| l' geom]]; try discriminate.
  destruct l as [start end_ | | |]; try discriminate.
  injection H as <-. exists p, d, start, end_. auto.
Qed.

(** What one turn of the loop of [process_door_groups] does to the list of
    doors. *)
Lemma door_step_ok parse_path g doors w doors' w' :
  door_step parse_path g doors w = (Ok doors', w') ->
  doors' = doors \/
  exists name t approach line,
    doors' = doors ++ [(name, line, approach)] /\
    text_of (get_text_from_group g) = Ok name /\
    get_group_transform g = Ok t /\
    length (findall_children circle_el g) = 2%nat /\
    read_circles (findall_children circle_el g) t = Ok approach /\
    extract_line_from_path parse_path (find_child path_el g) (Some t) = Ok line.
Proof.
  unfold door_step. intros H.
  apply bind_ok in H. destruct H as (name & w1 & Hname & H).
  apply lift_ok in Hname. destruct Hname as [Hname ->].
  apply bind_ok in H. destruct H as (r & w2 & Hr & H).
  destruct r as [t |].
  - apply resolve_transform_some in Hr. destruct Hr as [Ht ->].
    destruct (length_is (findall_children circle_el g) 2) eqn:Elen; simpl in H.
    + apply bind_ok in H. destruct H as (approach & w3 & Happ & H).
      apply lift_ok in Happ. destruct Happ as [Happ ->].
      apply bind_ok in H. destruct H as (l & w4 & Hl & H).
      destruct l as [line |].
      * apply try_some in Hl.
        2:{ intros w0 x w5 Hx. apply warn_then_ok in Hx. tauto. }
        destruct Hl as [Hl ->]. apply ret_ok in H. destruct H as [-> ->].
        right. exists name, t, approach, line.
        unfold length_is in Elen. apply Nat.eqb_eq in Elen. auto 10.
      * apply ret_ok in H. left. tauto.
    + apply warn_then_ok in H. left. tauto.
  - apply ret_ok in H. left. tauto.
Qed.

(* ===================================================================== *)
(** ** The transform resolver *)
(* ===================================================================== *)





(** C2.  A transform that chains a second function after a valid
    translation is not refused: [get_group_transform] returns the
    translation, and the annotation under the group is extracted with it. *)
Theorem chained_transform_accepted :
  get_group_transform chained_group = Ok (1000, 2000) /\
  load_svg sample_parse_path chained_doc [] =
    (Ok ([(Some "charger"%string, (11000, 22000))], [], [], []), []).
Proof. split; vm_compute; reflexivity. Qed.

(** The forms that are refused. *)
Example refused_transforms :
  get_group_transform (g_with_transform "scale(2)") = Raise RuntimeError /\
  get_group_transform (g_with_transform "rotate(45)") = Raise RuntimeError /\
  get_group_transform (g_with_transform "matrix(1,0,0,1,5,5)") = Raise RuntimeError /\
  get_group_transform (g_with_transform "translate(5)") = Raise RuntimeError /\
  get_group_transform (g_with_transform "translate(1, 2)") = Raise RuntimeError /\
  get_group_transform (g_with_transform "scale(2) translate(1,2)") = Raise RuntimeError.
Proof. repeat split; vm_compute; reflexivity. Qed.

(* ===================================================================== *)
(** ** Doors *)
(* ===================================================================== *)

(** C10.  Every door that [process_door_groups] stores comes from one of the
    groups, whose transform resolves to a translation (dx, dy); its
    threshold is the single line of the group's path, each end rounded to
    3 decimals and moved by (dx, dy). *)
Theorem door_threshold_translated
    (parse_path : string -> result (list segment))
    (door_groups : list Element) (w w' : list warning) (doors : list (door_t xy)) :
  process_door_groups parse_path door_groups w = (Ok doors, w') ->
  Forall (fun d => exists g, In g door_groups /\ threshold_from parse_path g d) doors.
Proof.
  unfold process_door_groups.
  apply (for_each_inv (door_step parse_path)
           (Forall (fun d => exists g, In g door_groups /\ threshold_from parse_path g d)));
    [| constructor].
  intros g ds w0 ds' w0' Hin Hds Hstep.
  apply door_step_ok in Hstep.
  destruct Hstep as [-> | (name & t & approach & line & -> & _ & Ht & _ & _ & Hline)];
    [assumption |].
  apply Forall_app. split; [assumption |]. constructor; [| constructor].
  exists g. split; [assumption |].
  apply extract_line_ok in Hline.
  destruct Hline as (p & d & start & end_ & Hp & Hd & Hparse & ->).
  exists t, p, d, start, end_. auto.
Qed.

Lemma door_threshold_translated_witness :
  process_door_groups sample_parse_path [plain_door_group] [] =
    (Ok [(Some "door1"%string, ((5000, 5000), (5000, 10000)),
          [(3000, 7000); (7000, 7000)])], []) /\
  Forall (fun d => exists g, In g [plain_door_group] /\
                             threshold_from sample_parse_path g d)
         [(Some "door1"%string, ((5000, 5000), (5000, 10000)),
           [(3000, 7000); (7000, 7000)])].
Proof.
  split; [vm_compute; reflexivity |].
  apply (door_threshold_translated sample_parse_path [plain_door_group] [] []).
  vm_compute. reflexivity.
Defined.

(* ===================================================================== *)
(** ** Paths without segments *)
(* ===================================================================== *)

(** C3.  A path group whose path data parses to zero segments is not
    refused: [process_paths] stores a region without vertices under the
    group's name and emits no warning. *)
Theorem empty_path_becomes_region
    (parse_path : string -> result (list segment)) :
  parse_path ""%string = Ok [] ->
  process_paths parse_path [empty_path_group] [] =
    (Ok ([], [(Some "hall"%string, [])]), []).
Proof.
  intros H. cbv. rewrite H. cbv. reflexivity.
Qed.

Lemma empty_path_becomes_region_witness :
  sample_parse_path ""%string = Ok [] /\
  process_paths sample_parse_path [empty_path_group] [] =
    (Ok ([], [(Some "hall"%string, [])]), []).
Proof.
  split; [reflexivity |].
  apply (empty_path_becomes_region sample_parse_path). reflexivity.
Defined.

(** A path with a segment that is not a line is refused with a warning, and
    nothing is stored for it. *)
Lemma curved_path_refused
    (parse_path : string -> result (list segment)) (segs : list segment) :
  parse_path "M 0,0 L 0,5"%string = Ok segs ->
  forallb is_line segs = false ->
  process_paths parse_path
    [el group_el [] [el path_el [("d", "M 0,0 L 0,5")]%string []; label "arc"]] [] =
    (Ok ([], []), [UnparsedPath (Some "arc"%string)]).
Proof.
  intros H Hline. cbv -[forallb is_line]. rewrite H.
  destruct segs as [| l [| l' segs]].
  - discriminate.
  - simpl in Hline. rewrite andb_true_r in Hline. rewrite Hline.
    simpl. rewrite Hline. reflexivity.
  - rewrite Hline. reflexivity.
Qed.

(* ===================================================================== *)
(** ** The consistency checker *)
(* ===================================================================== *)

(** C4.  [check_svg_valid] raises on a document without an image element
    ([AttributeError], whatever the expected size) and on a document whose
    root has no [viewBox] ([KeyError]). *)
Theorem missing_element_raises
    (map_info : Type) (width height : map_info -> nat) (info : map_info) :
  check_svg_valid width height no_image_doc info = Raise AttributeError /\
  check_svg_valid width height no_viewbox_doc info = Raise KeyError.
Proof.
  split; [| reflexivity].
  unfold check_svg_valid.
  change (getitem (attrib no_image_doc) "viewBox") with (Ok "0 0 10 10"%string).
  change (find_child image_el no_image_doc) with (@None Element).
  cbn [rbind].
  match goal with
  | |- context [negb ?b] => destruct (negb b)
  end; reflexivity.
Qed.

(** The guards that are there: without [width] and without [x], the two
    checks on an element are skipped. *)
Lemma checks_skipped_without_attributes
    (map_info : Type) (width height : map_info -> nat) (info : map_info)
    (problems : list problem) (e : Element) :
  get "width" (attrib e) = None -> get "x" (attrib e) = None ->
  dim_match (Some e) (width info) (height info) problems = Ok problems /\
  ori_is_zero (Some e) problems = Ok problems.
Proof.
  intros Hw Hx. unfold dim_match, ori_is_zero. simpl. now rewrite Hw, Hx.
Qed.

(* ===================================================================== *)
(** ** Groups without a label *)
(* ===================================================================== *)

(** C5.  A point group or a door group without any [tspan] or [text] below
    it makes [load_svg] raise [AttributeError]: no warning is added and no
    result is returned. *)
Theorem unlabelled_group_aborts
    (parse_path : string -> result (list segment)) (w : list warning) :
  load_svg parse_path unlabelled_point_doc w = (Raise AttributeError, w) /\
  load_svg parse_path unlabelled_door_doc w = (Raise AttributeError, w).
Proof. split; vm_compute; reflexivity. Qed.

(** A path group without a label is the case that is handled: a warning,
    and the loop goes on. *)
Lemma unlabelled_path_group_skipped
    (parse_path : string -> result (list segment)) (w : list warning) :
  process_paths parse_path [unlabelled_path_group; unlabelled_path_group] w =
    (Ok ([], []), (w ++ [NoPathLabel]) ++ [NoPathLabel]).
Proof. vm_compute. reflexivity. Qed.

(* ===================================================================== *)
(** ** Marked circles and the heuristic strategy *)
(* ===================================================================== *)

Lemma point_group_step_ok g extra w extra' w' :
  point_group_step g extra w = (Ok extra', w') ->
  extra' = extra \/
  exists pt, extra' = extra ++ [pt] /\ unmarked_point_from g pt.
Proof.
  unfold point_group_step. intros H.
  apply bind_ok in H. destruct H as (name & w1 & Hname & H).
  apply bind_ok in H. destruct H as (r & w2 & Hr & H).
  destruct r as [t |]; [| apply ret_ok in H; left; tauto].
  apply resolve_transform_some in Hr. destruct Hr as [Ht ->].
  apply bind_ok in H. destruct H as (a & w3 & Ha & H).
  apply lift_ok in Ha. destruct Ha as [Ha ->].
  destruct (find_descendant circle_el g) as [c |] eqn:Ec; [| discriminate].
  injection Ha as <-.
  destruct (get "class" (attrib c)) as [cls |] eqn:Ecls;
    [apply ret_ok in H; left; tauto |].
  apply bind_ok in H. destruct H as (p & w4 & Hp & H).
  apply lift_ok in Hp. destruct Hp as [Hp ->].
  apply ret_ok in H. destruct H as [-> _].
  apply read_xy_ok in Hp. destruct Hp as (own & Hown & ->).
  right. exists (name, offset t own). split; [reflexivity |].
  exists c, t, own. auto.
Qed.

(** C6 (as the code has it).  Every point that the heuristic loop of
    [load_svg] adds was read from a group whose circle carries no [class]
    attribute: a circle marked by the annotation tool is not read a second
    time as a heuristic point. *)
Theorem heuristic_points_unmarked
    (point_groups : list Element) (w w' : list warning)
    (extra_points : list (point_t xy)) :
  for_each point_group_step point_groups [] w = (Ok extra_points, w') ->
  Forall (fun pt => exists g, In g point_groups /\ unmarked_point_from g pt)
         extra_points.
Proof.
  apply (for_each_inv point_group_step
           (Forall (fun pt => exists g, In g point_groups /\ unmarked_point_from g pt)));
    [| constructor].
  intros g ps w0 ps' w0' Hin Hps Hstep.
  apply point_group_step_ok in Hstep. destruct Hstep as [-> | (pt & -> & Hpt)];
    [assumption |].
  apply Forall_app. split; [assumption |]. constructor; [| constructor]. eauto.
Qed.

Lemma heuristic_points_unmarked_witness :
  for_each point_group_step [marked_point_group; dock_group] [] [] =
    (Ok [(Some "dock"%string, (5000, 5000))], []) /\
  Forall (fun pt => exists g, In g [marked_point_group; dock_group] /\
                              unmarked_point_from g pt)
         [(Some "dock"%string, (5000, 5000))].
Proof.
  split; [vm_compute; reflexivity |].
  apply (heuristic_points_unmarked [marked_point_group; dock_group] [] []).
  vm_compute. reflexivity.
Defined.

(** A group whose circle carries a [class] attribute adds no point. *)
Lemma marked_point_group_adds_nothing g c extra w extra' w' :
  find_descendant circle_el g = Some c ->
  get "class" (attrib c) <> None ->
  point_group_step g extra w = (Ok extra', w') ->
  extra' = extra.
Proof.
  intros Hc Hcls H. apply point_group_step_ok in H.
  destruct H as [-> | (pt & _ & c' & t & own & Hc' & Hnone & _)]; [reflexivity |].
  rewrite Hc in Hc'. injection Hc' as <-. now elim Hcls.
Qed.

(** The door loop makes no such test: the claim that no marked circle is
    read again fails on a door group whose circles are marked. *)
Lemma marked_circle_in_door_counterexample :
  ~ (forall (parse_path : string -> result (list segment)) (g : Element)
            (w w' : list warning) (doors : list (door_t xy)),
        existsb bears_marker (findall_children circle_el g) = true ->
        process_door_groups parse_path [g] w = (Ok doors, w') ->
        doors = []).
Proof.
  intros H.
  assert (E : process_door_groups sample_parse_path [marked_door_group] [] =
              (Ok [(Some "door1"%string, ((0, 0), (0, 5000)),
                    [(-2000, 2000); (2000, 2000)])], []))
    by (vm_compute; reflexivity).
  apply H in E; [discriminate | vm_compute; reflexivity].
Qed.

(* ===================================================================== *)
(** ** Tool-tagged shapes *)
(* ===================================================================== *)

Lemma point_step_ok x points w points' w' :
  point_step x points w = (Ok points', w') ->
  points' = points \/
  exists pt, points' = points ++ [pt] /\ tagged_point_from x pt.
Proof.
  destruct x as [[point text_] parent]. unfold point_step. intros H.
  apply bind_ok in H. destruct H as (g & w1 & Hg & H).
  apply lift_ok in Hg. destruct Hg as [-> ->].
  apply bind_ok in H. destruct H as (r & w2 & Hr & H).
  destruct r as [t |]; [| apply ret_ok in H; left; tauto].
  apply resolve_transform_some in Hr. destruct Hr as [Ht ->].
  apply bind_ok in H. destruct H as (p & w3 & Hp & H).
  apply lift_ok in Hp. destruct Hp as [Hp ->].
  apply ret_ok in H. destruct H as [-> _].
  apply read_xy_ok in Hp. destruct Hp as (own & Hown & ->).
  right. exists (text text_, offset t own). split; [reflexivity |].
  exists g, t, own. auto.
Qed.

Lemma pose_step_ok x poses w poses' w' :
  pose_step x poses w = (Ok poses', w') ->
  poses' = poses \/
  exists ps, poses' = poses ++ [ps] /\ tagged_pose_from x ps.
Proof.
  destruct x as [[pose text_] parent]. unfold pose_step. intros H.
  apply bind_ok in H. destruct H as (g & w1 & Hg & H).
  apply lift_ok in Hg. destruct Hg as [-> ->].
  apply bind_ok in H. destruct H as (r & w2 & Hr & H).
  destruct r as [t |]; [| apply ret_ok in H; left; tauto].
  apply resolve_transform_some in Hr. destruct Hr as [Ht ->].
  apply bind_ok in H. destruct H as (p1 & w3 & Hp1 & H).
  apply lift_ok in Hp1. destruct Hp1 as [Hp1 ->].
  apply bind_ok in H. destruct H as (p2 & w4 & Hp2 & H).
  apply lift_ok in Hp2. destruct Hp2 as [Hp2 ->].
  apply ret_ok in H. destruct H as [-> _].
  apply read_xy_ok in Hp1. destruct Hp1 as (a & Ha & ->).
  apply read_xy_ok in Hp2. destruct Hp2 as (b & Hb & ->).
  right. exists (text text_, offset t a, offset t b). split; [reflexivity |].
  exists g, t, a, b. auto.
Qed.

(** What one turn of the loop of [process_region_annotations] does: it
    leaves the pending regions alone, or appends the polygon's own vertices
    and sets the variable [translate] to the parent's translation. *)
Lemma region_step_ok x st w st' w' :
  region_step x st w = (Ok st', w') ->
  (exists g, snd x = Ok g /\ get_group_transform g = Raise RuntimeError /\
             st' = RegionLoop (pending st) (0, 0)) \/
  exists g t own,
    snd x = Ok g /\ get_group_transform g = Ok t /\
    own_vertices (shape_of x) = Ok own /\
    st' = RegionLoop (pending st ++ [(name_of x, own)]) t.
Proof.
  destruct x as [[region text_] parent]. unfold region_step. intros H.
  apply bind_ok in H. destruct H as (g & w1 & Hg & H).
  apply lift_ok in Hg. destruct Hg as [-> ->].
  apply bind_ok in H. destruct H as (r & w2 & Hr & H).
  destruct r as [t |].
  2:{ apply ret_ok in H. destruct H as [-> _].
      apply resolve_transform_none in Hr. left. exists g. auto. }
  apply resolve_transform_some in Hr. destruct Hr as [Ht ->].
  apply bind_ok in H. destruct H as (pts & w3 & Hpts & H).
  apply lift_ok in Hpts. destruct Hpts as [Hpts ->].
  apply bind_ok in H. destruct H as (poly & w4 & Hpoly & H).
  apply lift_ok in Hpoly. destruct Hpoly as [Hpoly ->].
  apply ret_ok in H. destruct H as [-> _].
  right. exists g, t, poly. unfold own_vertices, shape_of, name_of. simpl.
  rewrite Hpts. simpl. auto.
Qed.


Lemma region_loop_pending xs st w st' w' :
  for_each region_step xs st w = (Ok st', w') ->
  Forall (fun rg => exists x, In x xs /\ pending_from x rg) (pending st) ->
  Forall (fun rg => exists x, In x xs /\ pending_from x rg) (pending st').
Proof.
  intros H Hst. revert H.
  apply (for_each_inv region_step
           (fun s => Forall (fun rg => exists x, In x xs /\ pending_from x rg) (pending s)));
    [| assumption].
  intros x s w0 s' w0' Hin Hs Hstep.
  apply region_step_ok in Hstep.
  destruct Hstep as [(g & _ & _ & ->) | (g & t & own & Hg & Ht & Hown & ->)];
    [assumption |].
  simpl. apply Forall_app. split; [assumption |]. constructor; [| constructor].
  exists x. split; [assumption |]. exists g, t, own. auto.
Qed.

Lemma consume_from xs st :
  Forall (fun rg => exists x, In x xs /\ pending_from x rg) (pending st) ->
  Forall (fun rg => exists x, In x xs /\ tagged_region_from x rg) (consume st).
Proof.
  unfold consume. intros H. apply Forall_map. revert H. apply Forall_impl.
  intros rg (x & Hin & g & t0 & own & Hg & Ht & Hown & ->).
  exists x. split; [assumption |]. exists g, t0, (translate_var st), own. auto.
Qed.

Lemma region_annotations_from names annots parents w regs w' :
  process_region_annotations names annots parents w = (Ok regs, w') ->
  Forall (fun rg => exists x, In x (zip3 annots names parents) /\
                              tagged_region_from x rg) regs.
Proof.
  unfold process_region_annotations. intros H.
  apply bind_ok in H. destruct H as (st & w1 & Hloop & H).
  apply ret_ok in H. destruct H as [-> _].
  apply consume_from. apply (region_loop_pending _ _ _ _ _ Hloop). constructor.
Qed.





(* ===================================================================== *)
(** ** Regions *)
(* ===================================================================== *)

Lemma extract_line_single parse_path path d line t :
  get "d" (attrib path) = Some d ->
  parse_path d = Ok [line] -> is_line line = true ->
  extract_line_from_path parse_path (Some path) (Some t) <> Raise RuntimeError.
Proof.
  intros Hd Hp Hl. unfold extract_line_from_path, getitem. simpl.
  rewrite Hd. simpl. rewrite Hp. simpl. rewrite Hl. discriminate.
Qed.

(** What one turn of the loop of [process_paths] does to the pending
    regions. *)
Lemma path_step_ok parse_path g s w s' w' :
  path_step parse_path g s w = (Ok s', w') ->
  pending (snd s') = pending (snd s) \/
  exists rg,
    pending (snd s') = pending (snd s) ++ [rg] /\
    path_pending_from parse_path g rg.
Proof.
  destruct s as [poses st]. unfold path_step. intros H.
  destruct (negb (length_is (children g) 2)).
  { apply ret_ok in H. destruct H as [-> _]. now left. }
  destruct (get_text_from_group g) as [text_ |].
  2:{ apply warn_then_ok in H. destruct H as [-> _]. now left. }
  apply bind_ok in H. destruct H as (r & w1 & Hr & H).
  destruct r as [t |].
  2:{ apply ret_ok in H. destruct H as [-> _]. now left. }
  apply resolve_transform_some in Hr. destruct Hr as [Ht ->].
  apply bind_ok in H. destruct H as (l & w2 & Hl & H).
  destruct l as [pose |].
  { apply ret_ok in H. destruct H as [-> _]. now left. }
  apply try_none in Hl. destruct Hl as [Hline Hw]. apply ret_ok in Hw.
  destruct Hw as [_ ->].
  apply bind_ok in H. destruct H as (a & w3 & Ha & H).
  apply lift_ok in Ha. destruct Ha as [Ha ->].
  destruct (find_descendant path_el g) as [path |] eqn:Epath; [| discriminate].
  injection Ha as <-.
  apply bind_ok in H. destruct H as (d & w4 & Hd & H).
  apply lift_ok in Hd. destruct Hd as [Hd ->].
  unfold getitem in Hd.
  destruct (get "d" (attrib path)) as [d' |] eqn:Ed; [| discriminate].
  injection Hd as ->.
  apply bind_ok in H. destruct H as (segs & w5 & Hsegs & H).
  apply lift_ok in Hsegs. destruct Hsegs as [Hsegs ->].
  destruct (forallb is_line segs) eqn:Hall.
  - apply ret_ok in H. destruct H as [-> _]. right. simpl.
    eexists. split; [reflexivity |].
    exists path, d, segs. repeat split; try assumption.
    intros Hlen. destruct segs as [| line [| line' segs]]; try discriminate.
    simpl in Hall. rewrite andb_true_r in Hall.
    now apply (extract_line_single parse_path path d line t Ed Hsegs Hall).
  - apply warn_then_ok in H. destruct H as [-> _]. now left.
Qed.

Lemma process_paths_regions parse_path groups w poses regions w' :
  process_paths parse_path groups w = (Ok (poses, regions), w') ->
  Forall (fun rg => exists g, In g groups /\ path_region_from parse_path g rg)
         regions.
Proof.
  unfold process_paths. destruct groups as [| g0 groups].
  { intros H. apply ret_ok in H. destruct H as [H _]. injection H as _ ->. constructor. }
  remember (g0 :: groups) as gs eqn:Egs. clear Egs. intros H.
  apply bind_ok in H. destruct H as (st & w1 & Hloop & H).
  apply ret_ok in H. destruct H as [H _]. injection H as _ ->.
  assert (Hpend : Forall (fun rg => exists g, In g gs /\ path_pending_from parse_path g rg)
                         (pending (snd st))).
  { revert Hloop.
    apply (for_each_inv (path_step parse_path)
             (fun s => Forall (fun rg => exists g, In g gs /\
                                                   path_pending_from parse_path g rg)
                              (pending (snd s))));
      [| constructor].
    intros g s w0 s' w0' Hin Hs Hstep. apply path_step_ok in Hstep.
    destruct Hstep as [-> | (rg & -> & Hrg)]; [assumption |].
    apply Forall_app. split; [assumption |]. constructor; [| constructor]. eauto. }
  unfold consume. apply Forall_map. revert Hpend. apply Forall_impl.
  intros rg (g & Hin & path & d & segs & Hpath & Hd & Hsegs & Hall & Hlen & Hrg).
  exists g. split; [assumption |].
  exists path, d, segs, (translate_var (snd st)). simpl. rewrite Hrg, map_map.
  auto 10.
Qed.

Lemma in_zip3_shape (x : tagged) annots names parents :
  In x (zip3 annots names parents) -> In (shape_of x) annots.
Proof.
  destruct x as [[a b] c]. unfold zip3, shape_of. simpl. intros H.
  apply in_combine_l in H. now apply in_combine_l in H.
Qed.

(** The parts of a run of [load_svg] that returns. *)
Lemma load_svg_ok parse_path tree w a w' :
  load_svg parse_path tree w = (Ok a, w') ->
  exists points poses regions doors path_poses path_regions extra_points
         w1 w2 w3 w4 w5,
    process_point_annotations
      (map snd (findall_marked_names tree circle_el "circle_annotation"))
      (map snd (findall_marked tree circle_el "circle_annotation"))
      (parents_of tree (findall_marked tree circle_el "circle_annotation")) w
      = (Ok points, w1) /\
    process_pose_annotations
      (map snd (findall_marked_names tree line_el "pose_line_annotation"))
      (map snd (findall_marked tree line_el "pose_line_annotation"))
      (parents_of tree (findall_marked tree line_el "pose_line_annotation")) w1
      = (Ok poses, w2) /\
    process_region_annotations
      (map snd (findall_marked_names tree poly_el "region_annotation"))
      (map snd (findall_marked tree poly_el "region_annotation"))
      (parents_of tree (findall_marked tree poly_el "region_annotation")) w2
      = (Ok regions, w3) /\
    process_door_groups parse_path
      (map snd (filter (fun g => length_is (children (snd g)) 4)
                       (findall_groups_with tree circle_el))) w3
      = (Ok doors, w4) /\
    process_paths parse_path (map snd (findall_groups_with tree path_el)) w4
      = (Ok (path_poses, path_regions), w5) /\
    for_each point_group_step
      (map snd (filter (fun g => length_is (children (snd g)) 2)
                       (findall_groups_with tree circle_el))) [] w5
      = (Ok extra_points, w') /\
    a = (points ++ extra_points, poses ++ path_poses, regions ++ path_regions, doors).
Proof.
  unfold load_svg. intros H.
  apply bind_ok in H. destruct H as (points & w1 & H1 & H).
  apply bind_ok in H. destruct H as (poses & w2 & H2 & H).
  apply bind_ok in H. destruct H as (regions & w3 & H3 & H).
  apply bind_ok in H. destruct H as (doors & w4 & H4 & H).
  apply bind_ok in H. destruct H as ([path_poses path_regions] & w5 & H5 & H).
  apply bind_ok in H. destruct H as (extra & w6 & H6 & H).
  apply ret_ok in H. destruct H as [-> ->].
  exists points, poses, regions, doors, path_poses, path_regions, extra,
         w1, w2, w3, w4, w5.
  auto 10.
Qed.

(** C7 (as the code has it).  Every region in the result of [load_svg] has
    one vertex for each vertex of its source, in the order of the source:
    for each entry of the point list of a marked polygon, or for each
    segment of an all-line path whose number of segments is not 1.  The
    vertices are the source's, rounded and moved by one translation. *)
Theorem regions_keep_source_order
    (parse_path : string -> result (list segment)) (tree : Element)
    (w w' : list warning) (a : annotations xy) :
  load_svg parse_path tree w = (Ok a, w') ->
  Forall (region_source parse_path tree) (regions_of a).
Proof.
  intros H. apply load_svg_ok in H.
  destruct H as (points & poses & regions & doors & path_poses & path_regions &
                 extra & w1 & w2 & w3 & w4 & w5 & _ & _ & Hreg & _ & Hpath & _ & ->).
  simpl. apply Forall_app. split.
  - apply region_annotations_from in Hreg. revert Hreg. apply Forall_impl.
    intros rg (x & Hin & g & t0 & t & own & _ & _ & Hown & ->).
    left. exists (shape_of x), own, t.
    split; [now apply in_zip3_shape in Hin |]. auto.
  - apply process_paths_regions in Hpath. revert Hpath. apply Forall_impl.
    intros rg Hrg. now right.
Qed.

Lemma regions_keep_source_order_witness :
  load_svg sample_parse_path kitchen_doc [] =
    (Ok ([], [],
         [(Some "kitchen"%string,
           [(5000, 5000); (15000, 5000); (15000, 15000); (5000, 15000)])], []),
     []) /\
  Forall (region_source sample_parse_path kitchen_doc)
         [(Some "kitchen"%string,
           [(5000, 5000); (15000, 5000); (15000, 15000); (5000, 15000)])].
Proof.
  split; [vm_compute; reflexivity |].
  apply (regions_keep_source_order sample_parse_path kitchen_doc [] []
           ([], [],
            [(Some "kitchen"%string,
              [(5000, 5000); (15000, 5000); (15000, 15000); (5000, 15000)])], [])).
  vm_compute. reflexivity.
Defined.

(** The claim that every region has at least three vertices fails on a
    marked polygon with two points. *)
Lemma region_three_vertices_counterexample :
  ~ (forall (parse_path : string -> result (list segment)) (tree : Element)
            (w w' : list warning) (a : annotations xy),
        load_svg parse_path tree w = (Ok a, w') ->
        Forall (fun rg : region_t xy => (3 <= length (snd rg))%nat) (regions_of a)).
Proof.
  intros H.
  assert (E : load_svg sample_parse_path two_point_doc [] =
              (Ok ([], [], [(Some "strip"%string, [(0, 0); (10000, 0)])], []), []))
    by (vm_compute; reflexivity).
  apply H in E. simpl in E. inversion E as [| rg l Hlen _]. subst.
  simpl in Hlen. lia.
Qed.

(* ===================================================================== *)
(** ** The coordinate projection *)
(* ===================================================================== *)

Lemma read_circles_length circles t ps :
  read_circles circles t = Ok ps -> length ps = length circles.
Proof.
  intros H. apply read_circles_ok in H.
  induction H; simpl; [reflexivity | now f_equal].
Qed.

(** Every door that [process_door_groups] stores has two approach points. *)
Lemma doors_have_two_approaches parse_path groups w doors w' :
  process_door_groups parse_path groups w = (Ok doors, w') ->
  Forall (fun d : door_t xy => length (snd d) = 2%nat) doors.
Proof.
  unfold process_door_groups.
  apply (for_each_inv (door_step parse_path)
           (Forall (fun d : door_t xy => length (snd d) = 2%nat)));
    [| constructor].
  intros g ds w0 ds' w0' _ Hds Hstep. apply door_step_ok in Hstep.
  destruct Hstep as [-> | (name & t & approach & line & -> & _ & _ & Hlen & Hread & _)];
    [assumption |].
  apply Forall_app. split; [assumption |]. constructor; [| constructor].
  simpl. apply read_circles_length in Hread. congruence.
Qed.

Lemma project_doors_ok {map_info W : Type} (conv : map_info -> xy -> W)
    (info : map_info) (doors : list (door_t xy)) :
  Forall (fun d : door_t xy => length (snd d) = 2%nat) doors ->
  all_ok (map (project_door conv info) doors) = Ok (map (map_door (conv info)) doors).
Proof.
  induction 1 as [| d doors Hd _ IH]; simpl; [reflexivity |].
  rewrite IH. destruct d as [[name [d1 d2]] approach]. simpl in Hd.
  destruct approach as [| p1 [| p2 [| p3 approach]]]; try discriminate.
  reflexivity.
Qed.

Lemma transform_to_map_coords_ok {map_info W : Type} (conv : map_info -> xy -> W)
    (info : map_info) (a : annotations xy) :
  Forall (fun d : door_t xy => length (snd d) = 2%nat) (doors_of a) ->
  transform_to_map_coords conv info a = Ok (map_annotations (conv info) a).
Proof.
  destruct a as [[[points poses] regions] doors]. simpl. intros Hdoors.
  rewrite (project_doors_ok conv info doors Hdoors). simpl.
  unfold map_annotations. simpl.
  assert (E : map (fun ps : pose_t xy =>
                     let '(name, p1, p2) := ps in (name, conv info p1, conv info p2))
                  poses
              = map (map_pose (conv info)) poses).
  { apply map_ext. intros [[name p1] p2]. reflexivity. }
  rewrite E. reflexivity.
Qed.

Lemma skeleton_projected {P Q : Type} (conv : P -> Q) (a : annotations P) :
  skeleton (map_annotations conv a) = skeleton a.
Proof.
  destruct a as [[[points poses] regions] doors].
  unfold skeleton, map_annotations. simpl. rewrite !map_map. simpl.
  f_equal; [f_equal |]; apply map_ext; intros x; simpl; now rewrite length_map.
Qed.

(** C8.  When the document loads in raw-pixel mode with the annotations [a],
    the projection of [a] succeeds and is [a] with every coordinate of the
    four collections replaced by its converted value; loading in projected
    mode returns exactly that, with the same warnings; names, numbers of
    elements, order and the pairing of a door with its approach points are
    those of [a]. *)
Theorem projection_keeps_structure
    (parse_path : string -> result (list segment))
    (map_info : Type) (width height : map_info -> nat)
    (W : Type) (point_to_map_coords : map_info -> xy -> W)
    (tree : Element) (info : map_info) (w w' : list warning)
    (raw : annotations xy + annotations W) :
  load_annotations parse_path width height point_to_map_coords tree info true w
    = (Ok raw, w') ->
  exists a : annotations xy,
    raw = inl a /\
    transform_to_map_coords point_to_map_coords info a
      = Ok (map_annotations (point_to_map_coords info) a) /\
    load_annotations parse_path width height point_to_map_coords tree info false w
      = (Ok (inr (map_annotations (point_to_map_coords info) a)), w') /\
    skeleton (map_annotations (point_to_map_coords info) a) = skeleton a.
Proof.
  unfold load_annotations. intros H.
  apply bind_ok in H. destruct H as (problems & w1 & Hcheck & H).
  apply bind_ok in H. destruct H as (u & w2 & Hwarn & H).
  apply bind_ok in H. destruct H as (a & w3 & Hload & H).
  simpl in H. apply ret_ok in H. destruct H as [-> ->].
  assert (Hproj : transform_to_map_coords point_to_map_coords info a
                  = Ok (map_annotations (point_to_map_coords info) a)).
  { apply transform_to_map_coords_ok.
    apply load_svg_ok in Hload.
    destruct Hload as (points & poses & regions & doors & path_poses & path_regions &
                       extra & v1 & v2 & v3 & v4 & v5 & _ & _ & _ & Hdoors & _ & _ & ->).
    simpl. now apply doors_have_two_approaches in Hdoors. }
  exists a. split; [reflexivity |]. split; [exact Hproj |].
  split; [| apply skeleton_projected].
  unfold bind at 1. rewrite Hcheck.
  unfold bind at 1. rewrite Hwarn.
  unfold bind at 1. rewrite Hload.
  simpl. unfold bind, lift, ret. rewrite Hproj. reflexivity.
Qed.

Lemma projection_keeps_structure_witness :
  let a : annotations xy :=
    ([(Some "charger"%string, (15000, 25000))],
     [(Some "entry"%string, (0, 0), (0, 5000))],
     [(Some "kitchen"%string,
       [(5000, 5000); (15000, 5000); (15000, 15000); (5000, 15000)])],
     [(Some "door1"%string, ((5000, 5000), (5000, 10000)),
       [(3000, 7000); (7000, 7000)])]) in
  load_annotations sample_parse_path sample_size sample_size sample_conv
    full_doc tt true [] = (Ok (inl a), []) /\
  exists a' : annotations xy,
    @inl _ (annotations xy) a = inl a' /\
    transform_to_map_coords sample_conv tt a'
      = Ok (map_annotations (sample_conv tt) a') /\
    load_annotations sample_parse_path sample_size sample_size sample_conv
      full_doc tt false []
      = (Ok (inr (map_annotations (sample_conv tt) a')), []) /\
    skeleton (map_annotations (sample_conv tt) a') = skeleton a'.
Proof.
  intros a. split; [vm_compute; reflexivity |].
  apply (projection_keeps_structure sample_parse_path unit sample_size sample_size
           xy sample_conv full_doc tt [] [] (inl a)).
  vm_compute. reflexivity.
Defined.

(* ===================================================================== *)
(** ** The transforms that are accepted *)
(* ===================================================================== *)

Lemma string_of_list_ascii_app a b :
  string_of_list_ascii (a ++ b) =
  (string_of_list_ascii a ++ string_of_list_ascii b)%string.
Proof. induction a as [| c a IH]; simpl; [reflexivity | now rewrite IH]. Qed.

Lemma lang_sign_text m :
  lang (Opt (Cls is_sign)) m -> is_sign_text (string_of_list_ascii m).
Proof.
  simpl. intros [(c & -> & Hc) | ->]; [| now left].
  unfold is_sign in Hc. apply orb_true_iff in Hc.
  destruct Hc as [Hc | Hc]; apply Ascii.eqb_eq in Hc; subst c.
  - right. now right.
  - right. now left.
Qed.

Lemma list_nonempty_string m : m <> [] -> string_of_list_ascii m <> ""%string.
Proof. destruct m; simpl; [intros H; now elim H | discriminate]. Qed.

(** The words of [float_pattern] are the signed decimals. *)
Lemma lang_float_signed m :
  lang float_pattern m -> signed_decimal (string_of_list_ascii m).
Proof.
  unfold float_pattern.
  intros [(s & m1 & -> & Hs & d & m2 & -> & Hd & q & f & -> & -> & Hne & Hf)
         | (s & d & -> & Hs & Hne & Hd)].
  - exists (string_of_list_ascii s), (string_of_list_ascii d), (string_of_list_ascii f).
    split; [now apply lang_sign_text |].
    unfold all_digits. rewrite !list_ascii_of_string_of_list_ascii.
    split; [exact Hd |]. split; [exact Hf |].
    left. split; [now apply list_nonempty_string |].
    now rewrite !string_of_list_ascii_app.
  - exists (string_of_list_ascii s), (string_of_list_ascii d), ""%string.
    split; [now apply lang_sign_text |].
    unfold all_digits. rewrite !list_ascii_of_string_of_list_ascii.
    split; [exact Hd |]. split; [reflexivity |].
    right. split; [reflexivity |]. split; [now apply list_nonempty_string |].
    now rewrite string_of_list_ascii_app.
Qed.

Lemma lang_lit p m : lang (lit p) m -> m = p.
Proof.
  revert m. induction p as [| c p IH]; simpl; intros m H; [assumption |].
  destruct H as (m1 & m2 & -> & -> & H2). simpl. f_equal. now apply IH.
Qed.

Lemma groupless_lit p : groupless (lit p) = true.
Proof. induction p as [| c p IH]; simpl; [reflexivity | assumption]. Qed.

(** What a successful match of [translation_pattern] has read. *)
Lemma translation_match_shape s caps :
  rmatch translation_pattern s [] (fun _ _ c => Some c) = Some caps ->
  exists a b tail,
    s = list_ascii_of_string "translate(" ++ a ++ ","%char :: b ++ ")"%char :: tail /\
    lang float_pattern a /\ lang float_pattern b /\
    caps = [(2%nat, b); (1%nat, a)].
Proof.
  unfold translation_pattern.
  assert (G : groupless float_pattern = true) by reflexivity.
  remember float_pattern as F eqn:EF.
  remember (list_ascii_of_string "translate(") as pre eqn:Epre.
  cbn [rmatch]. intros H.
  apply (rmatch_sound (lit pre) (groupless_lit pre)) in H.
  destruct H as (m0 & rest0 & -> & L0 & H). apply lang_lit in L0. subst m0.
  apply (rmatch_sound F G) in H. destruct H as (a & rest1 & -> & La & H).
  destruct rest1 as [| c rest1]; [discriminate |].
  destruct (Ascii.eqb "," c) eqn:Ec; [| discriminate].
  apply Ascii.eqb_eq in Ec. subst c.
  apply (rmatch_sound F G) in H. destruct H as (b & rest2 & -> & Lb & H).
  destruct rest2 as [| c rest2]; [discriminate |].
  destruct (Ascii.eqb ")" c) eqn:Ec; [| discriminate].
  apply Ascii.eqb_eq in Ec. subst c. injection H as <-.
  exists a, b, rest2. auto.
Qed.

Lemma translate_text_chars A B tail :
  list_ascii_of_string (translate_text A B tail) =
  list_ascii_of_string "translate(" ++ list_ascii_of_string A ++
  ","%char :: list_ascii_of_string B ++ ")"%char :: list_ascii_of_string tail.
Proof.
  unfold translate_text. now rewrite !list_ascii_of_string_app.
Qed.



(** X2.  The only exception [get_group_transform] raises is [RuntimeError]:
    the groups of a match are always accepted by [float], so the callers'
    [except RuntimeError] catches every failure of the resolver. *)
Theorem transform_raises_only_runtime_error (g : Element) (e : exn) :
  get_group_transform g = Raise e -> e = RuntimeError.
Proof.
  unfold get_group_transform.
  destruct (get "transform" (attrib g)) as [tr |]; [| discriminate].
  unfold re_match.
  destruct (rmatch translation_pattern (list_ascii_of_string tr) []
              (fun _ _ caps => Some caps)) as [caps |] eqn:Em.
  - apply translation_match_shape in Em.
    destruct Em as (a & b & tail & Hs & La & Lb & ->).
    unfold group. cbn [lookup_group Nat.eqb].
    apply lang_float_signed in La. apply lang_float_signed in Lb.
    destruct (float_s3_signed _ La) as (da & Hda & Ha3).
    destruct (float_s3_signed _ Lb) as (db & Hdb & Hb3).
    rewrite Ha3, Hb3. discriminate.
  - intros H. now injection H as <-.
Qed.

Lemma transform_raises_only_runtime_error_witness :
  get_group_transform (g_with_transform "rotate(45)") = Raise RuntimeError /\
  RuntimeError = RuntimeError.
Proof.
  split; [vm_compute; reflexivity |].
  apply (transform_raises_only_runtime_error (g_with_transform "rotate(45)")).
  vm_compute. reflexivity.
Defined.

(* ===================================================================== *)
(** ** When the consistency checker returns, and what *)
(* ===================================================================== *)






Lemma dim_match_appends e w h ps ps' :
  dim_match e w h ps = Ok ps' ->
  exists more, ps' = ps ++ more /\ (length more <= 1)%nat /\
               existsb is_viewbox_mismatch more = false.
Proof.
  unfold dim_match. intros H.
  apply rbind_ok in H. destruct H as (a & _ & H).
  destruct (get "width" a) as [sw |].
  2:{ injection H as <-. exists []. rewrite app_nil_r. simpl. auto. }
  apply rbind_ok in H. destruct H as (dw & _ & H).
  apply rbind_ok in H. destruct H as (sh & _ & H).
  apply rbind_ok in H. destruct H as (dh & _ & H).
  destruct (negb (dec_is_nat dw w) || negb (dec_is_nat dh h));
    injection H as <-.
  - eexists. split; [reflexivity |]. simpl. auto.
  - exists []. rewrite app_nil_r. simpl. auto.
Qed.

Lemma ori_is_zero_appends e ps ps' :
  ori_is_zero e ps = Ok ps' ->
  exists more, ps' = ps ++ more /\ (length more <= 1)%nat /\
               existsb is_viewbox_mismatch more = false.
Proof.
  unfold ori_is_zero. intros H.
  apply rbind_ok in H. destruct H as (a & _ & H).
  destruct (get "x" a) as [sx |].
  2:{ injection H as <-. exists []. rewrite app_nil_r. simpl. auto. }
  apply rbind_ok in H. destruct H as (dx & _ & H).
  apply rbind_ok in H. destruct H as (sy & _ & H).
  apply rbind_ok in H. destruct H as (dy & _ & H).
  destruct (negb (dec_is_nat dx 0) || negb (dec_is_nat dy 0));
    injection H as <-.
  - eexists. split; [reflexivity |]. simpl. auto.
  - exists []. rewrite app_nil_r. simpl. auto.
Qed.

(** X4.  When [check_svg_valid] returns, its messages are: first, the
    mismatch of the [viewBox] with [0 0 <width> <height>], present exactly
    when the two texts differ; then at most three messages about sizes and
    origin.  So there are never more than four. *)
Theorem check_svg_valid_messages
    (map_info : Type) (width height : map_info -> nat)
    (tree : Element) (info : map_info) (problems : list problem) :
  check_svg_valid width height tree info = Ok problems ->
  exists viewbox more,
    get "viewBox" (attrib tree) = Some viewbox /\
    problems =
      (if String.eqb viewbox (target_viewbox (width info) (height info))
       then []
       else [ViewboxMismatch viewbox (target_viewbox (width info) (height info))])
      ++ more /\
    (length more <= 3)%nat /\
    existsb is_viewbox_mismatch more = false /\
    (length problems <= 4)%nat.
Proof.
  unfold check_svg_valid, getitem. intros H.
  destruct (get "viewBox" (attrib tree)) as [viewbox |]; [| discriminate].
  cbn [rbind] in H. fold (target_viewbox (width info) (height info)) in H.
  apply rbind_ok in H. destruct H as (ps1 & H1 & H).
  apply rbind_ok in H. destruct H as (ps2 & H2 & H3).
  apply dim_match_appends in H1. destruct H1 as (m1 & -> & L1 & V1).
  apply ori_is_zero_appends in H2. destruct H2 as (m2 & -> & L2 & V2).
  apply dim_match_appends in H3. destruct H3 as (m3 & -> & L3 & V3).
  exists viewbox, (m1 ++ m2 ++ m3). split; [reflexivity |].
  split.
  { destruct (String.eqb viewbox (target_viewbox (width info) (height info)));
      simpl; now rewrite <- !app_assoc. }
  split; [rewrite !length_app; lia |].
  split; [rewrite !existsb_app, V1, V2, V3; reflexivity |].
  destruct (String.eqb viewbox (target_viewbox (width info) (height info)));
    simpl; rewrite !length_app; simpl; lia.
Qed.

Lemma check_svg_valid_messages_witness :
  check_svg_valid sample_size sample_size mismatched_doc tt =
    Ok [ViewboxMismatch "0 0 50 50" "0 0 100 100";
        OriginNotZero (1%Z, 0%nat) (0%Z, 0%nat)] /\
  exists viewbox more,
    get "viewBox" (attrib mismatched_doc) = Some viewbox /\
    [ViewboxMismatch "0 0 50 50" "0 0 100 100";
     OriginNotZero (1%Z, 0%nat) (0%Z, 0%nat)] =
      (if String.eqb viewbox (target_viewbox (sample_size tt) (sample_size tt))
       then []
       else [ViewboxMismatch viewbox (target_viewbox (sample_size tt) (sample_size tt))])
      ++ more /\
    (length more <= 3)%nat /\
    existsb is_viewbox_mismatch more = false /\
    (length [ViewboxMismatch "0 0 50 50" "0 0 100 100";
             OriginNotZero (1%Z, 0%nat) (0%Z, 0%nat)] <= 4)%nat.
Proof.
  split; [vm_compute; reflexivity |].
  apply (check_svg_valid_messages unit sample_size sample_size mismatched_doc tt).
  vm_compute. reflexivity.
Defined.

(* ===================================================================== *)
(** ** The outcomes of a door group *)
(* ===================================================================== *)

Lemma resolve_transform_resolved g complaint w t :
  get_group_transform g = Ok t ->
  resolve_transform g complaint w = (Ok (Some t), w).
Proof.
  intros H. unfold resolve_transform, try_except_RuntimeError, bind, lift, ret.
  now rewrite H.
Qed.

Lemma runtime_error_has_transform g :
  get_group_transform g = Raise RuntimeError ->
  exists tr, get "transform" (attrib g) = Some tr.
Proof.
  unfold get_group_transform.
  destruct (get "transform" (attrib g)) as [tr |]; [eauto | discriminate].
Qed.

Lemma resolve_transform_refused g complaint w tr :
  get "transform" (attrib g) = Some tr ->
  get_group_transform g = Raise RuntimeError ->
  resolve_transform g complaint w = (Ok None, w ++ [complaint tr]).
Proof.
  intros Htr H.
  unfold resolve_transform, try_except_RuntimeError, bind, lift, ret, warn, getitem.
  now rewrite H, Htr.
Qed.

Lemma read_xy_from_own attrs kx ky t own :
  own_xy attrs kx ky = Ok own -> read_xy attrs kx ky t = Ok (offset t own).
Proof. intros H. now rewrite read_xy_own, H. Qed.

(** X5.  A door group with a label, a transform that resolves, exactly two
    circle children with readable centres and a path child whose data is
    one line is stored as one door, with no warning: the threshold is the
    line and the approach points are the two centres, all moved by the
    group's translation. *)
Theorem door_group_accepted
    (parse_path : string -> result (list segment))
    (g label_ c1 c2 path_ : Element) (t p1 p2 : xy) (d : string)
    (start end_ : complex) (doors : list (door_t xy)) (w : list warning) :
  get_text_from_group g = Some label_ ->
  get_group_transform g = Ok t ->
  findall_children circle_el g = [c1; c2] ->
  own_xy (attrib c1) "cx" "cy" = Ok p1 ->
  own_xy (attrib c2) "cx" "cy" = Ok p2 ->
  find_child path_el g = Some path_ ->
  get "d" (attrib path_) = Some d ->
  parse_path d = Ok [Line start end_] ->
  door_step parse_path g doors w =
    (Ok (doors ++ [(text label_,
                    (offset t (round_point start), offset t (round_point end_)),
                    [offset t p1; offset t p2])]), w).
Proof.
  intros Hlabel Ht Hcircles Hp1 Hp2 Hpath Hd Hparse.
  unfold door_step. rewrite Hlabel. unfold bind at 1. cbn [text_of lift].
  unfold bind at 1. rewrite (resolve_transform_resolved g _ w t Ht).
  rewrite Hcircles. cbn [length_is length Nat.eqb negb read_circles].
  rewrite (read_xy_from_own _ _ _ t p1 Hp1), (read_xy_from_own _ _ _ t p2 Hp2).
  cbn [rbind]. rewrite Hpath.
  unfold extract_line_from_path, getitem. cbn [attrib_of rbind].
  rewrite Hd. cbn [rbind]. rewrite Hparse. reflexivity.
Qed.

Lemma door_group_accepted_witness :
  door_step sample_parse_path plain_door_group [] [] =
    (Ok [(Some "door1"%string, ((5000, 5000), (5000, 10000)),
          [(3000, 7000); (7000, 7000)])], []).
Proof.
  apply (door_group_accepted sample_parse_path plain_door_group (label "door1")
           (el circle_el [("cx", "-2"); ("cy", "2")]%string [])
           (el circle_el [("cx", "2"); ("cy", "2")]%string [])
           (el path_el [("d", "M 0,0 L 0,5")]%string [])
           (5000, 5000) (-2000, 2000) (2000, 2000) "M 0,0 L 0,5"
           (int 0, int 0) (int 0, int 5) [] []);
    vm_compute; reflexivity.
Defined.

(** X6.  A door group with a label and a transform that resolves, but
    whose number of circle children is not two, is not stored; one warning
    is emitted, with the group's name and the number of circles found. *)
Theorem door_group_wrong_circle_count
    (parse_path : string -> result (list segment))
    (g label_ : Element) (t : xy) (doors : list (door_t xy)) (w : list warning) :
  get_text_from_group g = Some label_ ->
  get_group_transform g = Ok t ->
  length (findall_children circle_el g) <> 2%nat ->
  door_step parse_path g doors w =
    (Ok doors,
     w ++ [WrongApproachCount (text label_) (length (findall_children circle_el g))]).
Proof.
  intros Hlabel Ht Hlen.
  unfold door_step. rewrite Hlabel. unfold bind at 1. cbn [text_of lift].
  unfold bind at 1. rewrite (resolve_transform_resolved g _ w t Ht).
  unfold length_is. apply Nat.eqb_neq in Hlen. rewrite Hlen. reflexivity.
Qed.

Lemma door_group_wrong_circle_count_witness :
  door_step sample_parse_path one_circle_door_group [] [] =
    (Ok [], [WrongApproachCount (Some "door2"%string) 1]).
Proof.
  apply (door_group_wrong_circle_count sample_parse_path one_circle_door_group
           (label "door2") (0, 0) [] []).
  - vm_compute. reflexivity.
  - vm_compute. reflexivity.
  - vm_compute. discriminate.
Defined.

(** X7.  A door group with a label, a transform that resolves and two
    readable circles, whose path data parses to anything but one line, is
    not stored; one warning is emitted, with the group's name. *)
Theorem door_group_without_line
    (parse_path : string -> result (list segment))
    (g label_ path_ : Element) (t : xy) (approach : list xy) (d : string)
    (segs : list segment) (doors : list (door_t xy)) (w : list warning) :
  get_text_from_group g = Some label_ ->
  get_group_transform g = Ok t ->
  length (findall_children circle_el g) = 2%nat ->
  read_circles (findall_children circle_el g) t = Ok approach ->
  find_child path_el g = Some path_ ->
  get "d" (attrib path_) = Some d ->
  parse_path d = Ok segs ->
  (forall start end_, segs <> [Line start end_]) ->
  door_step parse_path g doors w = (Ok doors, w ++ [NoDoorLine (text label_)]).
Proof.
  intros Hlabel Ht Hlen Hread Hpath Hd Hparse Hsegs.
  unfold door_step. rewrite Hlabel. unfold bind at 1. cbn [text_of lift].
  unfold bind at 1. rewrite (resolve_transform_resolved g _ w t Ht).
  unfold length_is. rewrite Hlen. cbn [Nat.eqb negb].
  unfold bind at 1. unfold lift at 1. rewrite Hread. rewrite Hpath.
  unfold extract_line_from_path, getitem. cbn [attrib_of rbind].
  rewrite Hd. cbn [rbind]. rewrite Hparse. cbn [rbind].
  destruct segs as [| l [| l' segs]]; try reflexivity.
  destruct l as [s e | | |]; try reflexivity.
  now elim (Hsegs s e).
Qed.

Lemma door_group_without_line_witness :
  door_step sample_parse_path bent_door_group [] [] =
    (Ok [], [NoDoorLine (Some "door3"%string)]).
Proof.
  apply (door_group_without_line sample_parse_path bent_door_group
           (label "door3") (el path_el [("d", "M 0,0 L 10,0 L 10,10")]%string [])
           (0, 0) [(-2000, 2000); (2000, 2000)] "M 0,0 L 10,0 L 10,10"
           [Line (int 0, int 0) (int 10, int 0); Line (int 10, int 0) (int 10, int 10)]
           [] []);
    try (vm_compute; reflexivity).
  intros start end_. discriminate.
Defined.

(* ===================================================================== *)
(** ** Groups whose transform does not resolve *)
(* ===================================================================== *)

(** X8.  When the transform [tr] of a group does not resolve, every loop
    skips the annotation of that group and emits exactly one warning, which
    carries the annotation's name and the raw text [tr]; what was collected
    before is kept as it is. *)
Theorem unresolved_transform_skips
    (parse_path : string -> result (list segment)) (g : Element) (tr : string) :
  get "transform" (attrib g) = Some tr ->
  get_group_transform g = Raise RuntimeError ->
  (forall shape text_ (points : list (point_t xy)) w,
      point_step (shape, text_, Ok g) points w =
        (Ok points, w ++ [ComplexPointTransform (text text_) tr])) /\
  (forall shape text_ (poses : list (pose_t xy)) w,
      pose_step (shape, text_, Ok g) poses w =
        (Ok poses, w ++ [ComplexPoseTransform (text text_) tr])) /\
  (forall shape text_ (st : region_loop) w,
      region_step (shape, text_, Ok g) st w =
        (Ok (RegionLoop (pending st) (0, 0)),
         w ++ [ComplexRegionTransform (text text_) tr])) /\
  (forall label_ (doors : list (door_t xy)) w,
      get_text_from_group g = Some label_ ->
      door_step parse_path g doors w =
        (Ok doors, w ++ [ComplexDoorGroupTransform (text label_) tr])) /\
  (forall label_ (extra : list (point_t xy)) w,
      get_text_from_group g = Some label_ ->
      point_group_step g extra w =
        (Ok extra, w ++ [ComplexPointGroupTransform (text label_) tr])) /\
  (forall label_ (poses : list (pose_t xy)) (st : region_loop) w,
      get_text_from_group g = Some label_ ->
      length (children g) = 2%nat ->
      path_step parse_path g (poses, st) w =
        (Ok (poses, RegionLoop (pending st) (0, 0)),
         w ++ [ComplexPathGroupTransform (text label_) tr])).
Proof.
  intros Htr H. repeat split.
  - intros shape text_ points w. unfold point_step.
    unfold bind at 1. cbn [lift]. unfold bind at 1.
    now rewrite (resolve_transform_refused g _ w tr Htr H).
  - intros shape text_ poses w. unfold pose_step.
    unfold bind at 1. cbn [lift]. unfold bind at 1.
    now rewrite (resolve_transform_refused g _ w tr Htr H).
  - intros shape text_ st w. unfold region_step.
    unfold bind at 1. cbn [lift]. unfold bind at 1.
    now rewrite (resolve_transform_refused g _ w tr Htr H).
  - intros label_ doors w Hlabel. unfold door_step. rewrite Hlabel.
    unfold bind at 1. cbn [text_of lift]. unfold bind at 1.
    now rewrite (resolve_transform_refused g _ w tr Htr H).
  - intros label_ extra w Hlabel. unfold point_group_step. rewrite Hlabel.
    unfold bind at 1. cbn [text_of lift]. unfold bind at 1.
    now rewrite (resolve_transform_refused g _ w tr Htr H).
  - intros label_ poses st w Hlabel Hlen. unfold path_step, length_is.
    rewrite Hlen, Hlabel. cbn [Nat.eqb negb]. unfold bind at 1.
    now rewrite (resolve_transform_refused g _ w tr Htr H).
Qed.

Lemma unresolved_transform_skips_witness :
  point_group_step scaled_group [] [] =
    (Ok [], [ComplexPointGroupTransform (Some "spot"%string) "scale(2)"]) /\
  door_step sample_parse_path rotated_door_group [] [] =
    (Ok [], [ComplexDoorGroupTransform (Some "door4"%string) "rotate(45)"]).
Proof.
  split.
  - apply (proj1 (proj2 (proj2 (proj2 (proj2
             (unresolved_transform_skips sample_parse_path scaled_group "scale(2)"
                eq_refl ltac:(vm_compute; reflexivity))))))
             (label "spot") [] []).
    vm_compute. reflexivity.
  - apply (proj1 (proj2 (proj2 (proj2
             (unresolved_transform_skips sample_parse_path rotated_door_group
                "rotate(45)" eq_refl ltac:(vm_compute; reflexivity)))))
             (label "door4") [] []).
    vm_compute. reflexivity.
Defined.

(* ===================================================================== *)
(** ** Groups are handled one by one *)
(* ===================================================================== *)

Lemma for_each_app {A S} (body : A -> S -> M S) xs ys s w :
  for_each body (xs ++ ys) s w = bind (for_each body xs s) (for_each body ys) w.
Proof.
  revert s w. induction xs as [| x xs IH]; intros s w; simpl; [reflexivity |].
  unfold bind in *. destruct (body x s w) as [[s1 | e] w1]; [| reflexivity].
  apply IH.
Qed.

(** A loop whose body only appends: running it from [acc] is running it
    from the empty list and appending the outcome to [acc]. *)
Lemma for_each_appending {A B} (body : A -> list B -> M (list B)) :
  (forall x acc w, body x acc w = appended acc (body x [] w)) ->
  forall xs acc w, for_each body xs acc w = appended acc (for_each body xs [] w).
Proof.
  intros Hbody xs. induction xs as [| x xs IH]; intros acc w.
  - simpl. unfold ret, appended. now rewrite app_nil_r.
  - simpl. unfold bind. rewrite (Hbody x acc w).
    destruct (body x [] w) as [[new | e] w1]; [| reflexivity].
    simpl. rewrite (IH (acc ++ new) w1), (IH new w1).
    destruct (for_each body xs [] w1) as [[out | e] w2]; [| reflexivity].
    simpl. now rewrite app_assoc.
Qed.

Lemma door_step_appends parse_path g acc w :
  door_step parse_path g acc w = appended acc (door_step parse_path g [] w).
Proof.
  unfold door_step, resolve_transform, try_except_RuntimeError, bind, lift, ret, warn,
    appended.
  destruct (text_of (get_text_from_group g)) as [name | e]; [| reflexivity].
  destruct (get_group_transform g) as [t | e].
  - destruct (negb (length_is (findall_children circle_el g) 2));
      [simpl; now rewrite app_nil_r |].
    destruct (read_circles (findall_children circle_el g) t) as [ap | e];
      [| reflexivity].
    destruct (extract_line_from_path parse_path (find_child path_el g) (Some t))
      as [l | e]; [reflexivity |].
    destruct e; try reflexivity. simpl. now rewrite app_nil_r.
  - destruct e; try reflexivity.
    destruct (getitem (attrib g) "transform") as [tr | e]; [| reflexivity].
    simpl. now rewrite app_nil_r.
Qed.

Lemma point_group_step_appends g acc w :
  point_group_step g acc w = appended acc (point_group_step g [] w).
Proof.
  unfold point_group_step, resolve_transform, try_except_RuntimeError, bind, lift, ret,
    warn, appended.
  destruct (text_of (get_text_from_group g)) as [name | e]; [| reflexivity].
  destruct (get_group_transform g) as [t | e].
  - destruct (attrib_of (find_descendant circle_el g)) as [a | e]; [| reflexivity].
    destruct (get "class" a); [simpl; now rewrite app_nil_r |].
    destruct (read_xy a "cx" "cy" t) as [p | e]; reflexivity.
  - destruct e; try reflexivity.
    destruct (getitem (attrib g) "transform") as [tr | e]; [| reflexivity].
    simpl. now rewrite app_nil_r.
Qed.

(** X9.  The door groups and the heuristic point groups are handled one
    by one: the result for a list of groups followed by another is the
    result for the first followed by the result for the second, the second
    run starting from the warnings the first has left.  In particular a
    group that is skipped changes nothing for the others. *)
Theorem groups_handled_independently
    (parse_path : string -> result (list segment)) :
  (forall gs1 gs2 w w1 w2 (d1 d2 : list (door_t xy)),
      process_door_groups parse_path gs1 w = (Ok d1, w1) ->
      process_door_groups parse_path gs2 w1 = (Ok d2, w2) ->
      process_door_groups parse_path (gs1 ++ gs2) w = (Ok (d1 ++ d2), w2)) /\
  (forall gs1 gs2 w w1 w2 (p1 p2 : list (point_t xy)),
      for_each point_group_step gs1 [] w = (Ok p1, w1) ->
      for_each point_group_step gs2 [] w1 = (Ok p2, w2) ->
      for_each point_group_step (gs1 ++ gs2) [] w = (Ok (p1 ++ p2), w2)).
Proof.
  split.
  - unfold process_door_groups. intros gs1 gs2 w w1 w2 d1 d2 H1 H2.
    rewrite for_each_app. unfold bind. rewrite H1.
    rewrite (for_each_appending (door_step parse_path)
               (door_step_appends parse_path) gs2 d1 w1), H2.
    reflexivity.
  - intros gs1 gs2 w w1 w2 p1 p2 H1 H2.
    rewrite for_each_app. unfold bind. rewrite H1.
    rewrite (for_each_appending point_group_step point_group_step_appends gs2 p1 w1), H2.
    reflexivity.
Qed.

Lemma groups_handled_independently_witness :
  process_door_groups sample_parse_path
    ([rotated_door_group] ++ [plain_door_group]) [] =
    (Ok ([] ++ [(Some "door1"%string, ((5000, 5000), (5000, 10000)),
                 [(3000, 7000); (7000, 7000)])]),
     [ComplexDoorGroupTransform (Some "door4"%string) "rotate(45)"]).
Proof.
  apply (proj1 (groups_handled_independently sample_parse_path)
           [rotated_door_group] [plain_door_group] []
           [ComplexDoorGroupTransform (Some "door4"%string) "rotate(45)"]);
    vm_compute; reflexivity.
Defined.

(* ===================================================================== *)
(** ** The outcomes of a path group *)
(* ===================================================================== *)

Lemma extract_line_refused parse_path path d segs t :
  get "d" (attrib path) = Some d -> parse_path d = Ok segs ->
  (forall start end_, segs <> [Line start end_]) ->
  extract_line_from_path parse_path (Some path) (Some t) = Raise RuntimeError.
Proof.
  intros Hd Hp Hs. unfold extract_line_from_path, getitem. cbn [attrib_of rbind].
  rewrite Hd. cbn [rbind]. rewrite Hp. cbn [rbind].
  destruct segs as [| l [| l' segs]]; try reflexivity.
  destruct l as [s e | | |]; try reflexivity. now elim (Hs s e).
Qed.

(** X10.  A group with two children, a label, a transform that resolves
    and a path whose data parses to [segs] has one of three outcomes, with
    no other effect: one line gives a pose (the line, rounded and moved by
    the translation); segments that are all lines, not exactly one of them,
    give a region (the start points of the segments, rounded); any segment
    that is not a line gives a warning with the name, and nothing else. *)
Theorem path_group_outcomes
    (parse_path : string -> result (list segment))
    (g label_ path_ : Element) (t : xy) (d : string) (segs : list segment)
    (poses : list (pose_t xy)) (st : region_loop) (w : list warning) :
  length (children g) = 2%nat ->
  get_text_from_group g = Some label_ ->
  get_group_transform g = Ok t ->
  find_descendant path_el g = Some path_ ->
  get "d" (attrib path_) = Some d ->
  parse_path d = Ok segs ->
  (forall start end_, segs = [Line start end_] ->
     path_step parse_path g (poses, st) w =
       (Ok (poses ++ [(text label_, offset t (round_point start),
                       offset t (round_point end_))],
            RegionLoop (pending st) t), w)) /\
  (forallb is_line segs = true -> length segs <> 1%nat ->
     path_step parse_path g (poses, st) w =
       (Ok (poses,
            RegionLoop (pending st ++
                        [(text label_, map (fun l => round_point (seg_start l)) segs)]) t),
        w)) /\
  (forallb is_line segs = false ->
     path_step parse_path g (poses, st) w =
       (Ok (poses, RegionLoop (pending st) t), w ++ [UnparsedPath (text label_)])).
Proof.
  intros Hlen Hlabel Ht Hpath Hd Hparse.
  assert (Hgo : path_step parse_path g (poses, st) w =
                match extract_line_from_path parse_path (Some path_) (Some t) with
                | Ok pose =>
                    (Ok (poses ++ [(text label_, fst pose, snd pose)],
                         RegionLoop (pending st) t), w)
                | Raise RuntimeError =>
                    if forallb is_line segs
                    then (Ok (poses,
                              RegionLoop
                                (pending st ++
                                 [(text label_,
                                   map (fun l => round_point (seg_start l)) segs)]) t), w)
                    else (Ok (poses, RegionLoop (pending st) t),
                          w ++ [UnparsedPath (text label_)])
                | Raise e => (Raise e, w)
                end).
  { unfold path_step, length_is. rewrite Hlen, Hlabel, Hpath. cbn [Nat.eqb negb].
    unfold bind at 1. rewrite (resolve_transform_resolved g _ w t Ht).
    unfold bind, try_except_RuntimeError, lift, ret, warn, getitem. cbn [attrib_of].
    destruct (extract_line_from_path parse_path (Some path_) (Some t)) as [pose | e];
      [reflexivity |].
    destruct e; try reflexivity.
    rewrite Hd, Hparse. destruct (forallb is_line segs); reflexivity. }
  rewrite Hgo. repeat split.
  - intros start end_ ->.
    unfold extract_line_from_path, getitem. cbn [attrib_of rbind].
    rewrite Hd. cbn [rbind]. rewrite Hparse. reflexivity.
  - intros Hall Hne.
    assert (Hno : forall s e, segs <> [Line s e]).
    { intros s e ->. now elim Hne. }
    rewrite (extract_line_refused parse_path path_ d segs t Hd Hparse Hno).
    now rewrite Hall.
  - intros Hall.
    assert (Hno : forall s e, segs <> [Line s e]).
    { intros s e ->. discriminate. }
    rewrite (extract_line_refused parse_path path_ d segs t Hd Hparse Hno).
    now rewrite Hall.
Qed.

Lemma path_group_outcomes_witness :
  path_step sample_parse_path entry_group ([], RegionLoop [] (0, 0)) [] =
    (Ok ([(Some "entry"%string, (0, 0), (0, 5000))], RegionLoop [] (0, 0)), []) /\
  path_step sample_parse_path corner_group ([], RegionLoop [] (0, 0)) [] =
    (Ok ([], RegionLoop [(Some "corner"%string, [(0, 0); (10000, 0)])] (0, 0)), []).
Proof.
  split.
  - apply (proj1 (path_group_outcomes sample_parse_path entry_group (label "entry")
                    (el path_el [("d", "M 0,0 L 0,5")]%string []) (0, 0) "M 0,0 L 0,5"
                    [Line (int 0, int 0) (int 0, int 5)] [] (RegionLoop [] (0, 0)) []
                    eq_refl ltac:(vm_compute; reflexivity) ltac:(vm_compute; reflexivity)
                    ltac:(vm_compute; reflexivity) eq_refl eq_refl)
             (int 0, int 0) (int 0, int 5)).
    reflexivity.
  - apply (proj1 (proj2 (path_group_outcomes sample_parse_path corner_group
                    (label "corner")
                    (el path_el [("d", "M 0,0 L 10,0 L 10,10")]%string []) (0, 0)
                    "M 0,0 L 10,0 L 10,10"
                    [Line (int 0, int 0) (int 10, int 0);
                     Line (int 10, int 0) (int 10, int 10)]
                    [] (RegionLoop [] (0, 0)) []
                    eq_refl ltac:(vm_compute; reflexivity) ltac:(vm_compute; reflexivity)
                    ltac:(vm_compute; reflexivity) eq_refl eq_refl))).
    + reflexivity.
    + simpl. discriminate.
Defined.

Lemma path_step_poses parse_path g s w s' w' :
  path_step parse_path g s w = (Ok s', w') ->
  fst s' = fst s \/
  exists ps, fst s' = fst s ++ [ps] /\ path_pose_from parse_path g ps.
Proof.
  destruct s as [poses st]. unfold path_step. intros H.
  destruct (length_is (children g) 2) eqn:Hlen; cbn [negb] in H.
  2:{ apply ret_ok in H. destruct H as [-> _]. now left. }
  destruct (get_text_from_group g) as [text_ |] eqn:Hlabel.
  2:{ apply warn_then_ok in H. destruct H as [-> _]. now left. }
  apply bind_ok in H. destruct H as (r & w1 & Hr & H).
  destruct r as [t |].
  2:{ apply ret_ok in H. destruct H as [-> _]. now left. }
  apply resolve_transform_some in Hr. destruct Hr as [Ht ->].
  apply bind_ok in H. destruct H as (l & w2 & Hl & H).
  destruct l as [pose |].
  - apply try_some in Hl.
    2:{ intros w0 x w3 Hx. apply ret_ok in Hx. tauto. }
    destruct Hl as [Hl ->]. apply ret_ok in H. destruct H as [-> _].
    apply extract_line_ok in Hl.
    destruct Hl as (p & d & start & end_ & Hp & Hd & Hparse & ->).
    right. eexists. split; [reflexivity |].
    exists text_, t, p, d, start, end_.
    unfold length_is in Hlen. apply Nat.eqb_eq in Hlen. auto 10.
  - apply bind_ok in H. destruct H as (a & w3 & _ & H).
    apply bind_ok in H. destruct H as (d & w4 & _ & H).
    apply bind_ok in H. destruct H as (segs & w5 & _ & H).
    destruct (forallb is_line segs).
    + apply ret_ok in H. destruct H as [-> _]. now left.
    + apply warn_then_ok in H. destruct H as [-> _]. now left.
Qed.

(** X11.  Every pose that [process_paths] returns comes from one of the
    groups: a group with two children, a label and a transform that
    resolves, whose path is one line; the pose is that line, each end
    rounded to 3 decimals and moved by the group's translation. *)
Theorem path_poses_from_single_lines
    (parse_path : string -> result (list segment)) (groups : list Element)
    (w w' : list warning) (poses : list (pose_t xy)) (regions : list (region_t xy)) :
  process_paths parse_path groups w = (Ok (poses, regions), w') ->
  Forall (fun ps => exists g, In g groups /\ path_pose_from parse_path g ps) poses.
Proof.
  unfold process_paths. destruct groups as [| g0 groups].
  { intros H. apply ret_ok in H. destruct H as [H _]. injection H as -> _. constructor. }
  remember (g0 :: groups) as gs eqn:Egs. clear Egs. intros H.
  apply bind_ok in H. destruct H as (st & w1 & Hloop & H).
  apply ret_ok in H. destruct H as [H _]. injection H as -> _.
  revert Hloop.
  apply (for_each_inv (path_step parse_path)
           (fun s => Forall (fun ps => exists g, In g gs /\ path_pose_from parse_path g ps)
                            (fst s)));
    [| constructor].
  intros g s w0 s' w0' Hin Hs Hstep. apply path_step_poses in Hstep.
  destruct Hstep as [-> | (ps & -> & Hps)]; [assumption |].
  apply Forall_app. split; [assumption |]. constructor; [| constructor]. eauto.
Qed.

Lemma path_poses_from_single_lines_witness :
  Forall (fun ps => exists g, In g [entry_group; corner_group] /\
                              path_pose_from sample_parse_path g ps)
         [(Some "entry"%string, (0, 0), (0, 5000))].
Proof.
  apply (path_poses_from_single_lines sample_parse_path [entry_group; corner_group]
           [] [] [(Some "entry"%string, (0, 0), (0, 5000))]
           [(Some "corner"%string, [(0, 0); (10000, 0)])]).
  vm_compute. reflexivity.
Defined.

(** X12.  Groups that do not have exactly two children are passed over by
    [process_paths] without a warning: when no group has two children, the
    result is empty and the warnings are unchanged. *)
Theorem path_groups_need_two_children
    (parse_path : string -> result (list segment)) (groups : list Element)
    (w : list warning) :
  Forall (fun g => length (children g) <> 2%nat) groups ->
  process_paths parse_path groups w = (Ok ([], []), w).
Proof.
  intros H. unfold process_paths. destruct groups as [| g0 groups]; [reflexivity |].
  remember (g0 :: groups) as gs eqn:Egs. clear Egs.
  assert (E : forall st, for_each (path_step parse_path) gs st w = (Ok st, w)).
  { induction H as [| g gs Hg _ IH]; intros st; [reflexivity |].
    simpl. unfold bind. unfold path_step at 1. destruct st as [poses rl].
    unfold length_is. apply Nat.eqb_neq in Hg. rewrite Hg. simpl. apply IH. }
  unfold bind. rewrite E. reflexivity.
Qed.

Lemma path_groups_need_two_children_witness :
  process_paths sample_parse_path [crowded_group; plain_door_group] [] = (Ok ([], []), []).
Proof.
  apply (path_groups_need_two_children sample_parse_path
           [crowded_group; plain_door_group] []).
  repeat constructor; vm_compute; discriminate.
Defined.

(* ===================================================================== *)
(** ** The translation of tagged regions *)
(* ===================================================================== *)

Lemma region_loop_translate xs st w st' w' :
  for_each region_step xs st w = (Ok st', w') ->
  translate_var st' =
  fold_left (fun _ x => resolved_or_zero x) xs (translate_var st).
Proof.
  revert st w. induction xs as [| x xs IH]; intros st w H; simpl in H.
  - apply ret_ok in H. destruct H as [-> _]. reflexivity.
  - apply bind_ok in H. destruct H as (st1 & w1 & Hstep & H).
    simpl. rewrite (IH st1 w1 H). f_equal.
    apply region_step_ok in Hstep.
    destruct Hstep as [(g & Hg & Ht & ->) | (g & t & own & Hg & Ht & _ & ->)];
      unfold resolved_or_zero; rewrite Hg, Ht; reflexivity.
Qed.

(** X13.  All the regions that [process_region_annotations] returns are
    moved by one and the same translation: the value the loop variable
    [translate] holds when the loop has ended, which is the translation of
    the parent of the last polygon zipped (or (0, 0) if that one did not
    resolve) and not, in general, the translation of each polygon's own
    parent. *)
Theorem tagged_regions_share_last_translation
    (names annots : list Element) (parents : list (result Element))
    (w w' : list warning) (regions : list (region_t xy)) :
  process_region_annotations names annots parents w = (Ok regions, w') ->
  Forall (fun rg =>
            exists x own,
              In x (zip3 annots names parents) /\
              own_vertices (shape_of x) = Ok own /\
              rg = (name_of x,
                    map (offset (loop_translate (zip3 annots names parents))) own))
         regions.
Proof.
  unfold process_region_annotations. intros H.
  apply bind_ok in H. destruct H as (st & w1 & Hloop & H).
  apply ret_ok in H. destruct H as [-> _].
  assert (Ht := region_loop_translate _ _ _ _ _ Hloop). simpl in Ht.
  assert (Hp : Forall (fun rg => exists x, In x (zip3 annots names parents) /\
                                           pending_from x rg) (pending st)).
  { apply (region_loop_pending _ _ _ _ _ Hloop). constructor. }
  unfold consume. apply Forall_map. revert Hp. apply Forall_impl.
  intros rg (x & Hin & g & t0 & own & Hg & Ht0 & Hown & ->).
  exists x, own. unfold loop_translate. rewrite <- Ht. auto.
Qed.

Lemma tagged_regions_share_last_translation_witness :
  process_region_annotations [label "kitchen"; label "yard"]
    [kitchen_polygon; yard_polygon] [Ok kitchen_group; Ok yard_group] [] =
    (Ok [(Some "kitchen"%string, [(0, 0); (10000, 0); (10000, 10000); (0, 10000)]);
         (Some "yard"%string, [(0, 0); (4000, 0); (4000, 4000)])], []) /\
  loop_translate (zip3 [kitchen_polygon; yard_polygon]
                       [label "kitchen"; label "yard"]
                       [Ok kitchen_group; Ok yard_group]) = (0, 0) /\
  Forall (fun rg =>
            exists x own,
              In x (zip3 [kitchen_polygon; yard_polygon]
                         [label "kitchen"; label "yard"]
                         [Ok kitchen_group; Ok yard_group]) /\
              own_vertices (shape_of x) = Ok own /\
              rg = (name_of x,
                    map (offset (loop_translate
                                   (zip3 [kitchen_polygon; yard_polygon]
                                         [label "kitchen"; label "yard"]
                                         [Ok kitchen_group; Ok yard_group]))) own))
         [(Some "kitchen"%string, [(0, 0); (10000, 0); (10000, 10000); (0, 10000)]);
          (Some "yard"%string, [(0, 0); (4000, 0); (4000, 4000)])].
Proof.
  split; [vm_compute; reflexivity |]. split; [vm_compute; reflexivity |].
  apply (tagged_regions_share_last_translation
           [label "kitchen"; label "yard"] [kitchen_polygon; yard_polygon]
           [Ok kitchen_group; Ok yard_group] [] []).
  vm_compute. reflexivity.
Defined.

(* ===================================================================== *)
(** ** How many tagged annotations come out *)
(* ===================================================================== *)

Lemma for_each_measure {A St} (body : A -> St -> M St) (m : St -> nat) :
  (forall x s w s' w', body x s w = (Ok s', w') -> (m s' <= 1 + m s)%nat) ->
  forall xs s w s' w',
    for_each body xs s w = (Ok s', w') -> (m s' <= m s + length xs)%nat.
Proof.
  intros Hbody xs. induction xs as [| x xs IH]; intros s w s' w' H; simpl in H.
  - apply ret_ok in H. destruct H as [-> _]. simpl. lia.
  - apply bind_ok in H. destruct H as (s1 & w1 & Hstep & H).
    apply IH in H. apply Hbody in Hstep. simpl. lia.
Qed.

Lemma zip3_length {A B C} (xs : list A) (ys : list B) (zs : list C) :
  length (zip3 xs ys zs) = Nat.min (Nat.min (length xs) (length ys)) (length zs).
Proof. unfold zip3. now rewrite !length_combine. Qed.

(** X14.  The three tool-tagged loops stop with the shortest of the
    sequences they zip: the number of points (poses, regions) returned is
    at most the number of marked shapes and at most the number of [text]
    elements found beside them.  A marked shape that is left without a
    [text] is dropped, with no warning. *)
Theorem tagged_output_bounded
    (names annots : list Element) (parents : list (result Element))
    (w w' : list warning) :
  (forall points : list (point_t xy),
      process_point_annotations names annots parents w = (Ok points, w') ->
      (length points <= Nat.min (length annots) (length names))%nat) /\
  (forall poses : list (pose_t xy),
      process_pose_annotations names annots parents w = (Ok poses, w') ->
      (length poses <= Nat.min (length annots) (length names))%nat) /\
  (forall regions : list (region_t xy),
      process_region_annotations names annots parents w = (Ok regions, w') ->
      (length regions <= Nat.min (length annots) (length names))%nat).
Proof.
  assert (Hz : (length (zip3 annots names parents)
                <= Nat.min (length annots) (length names))%nat)
    by (rewrite zip3_length; lia).
  repeat split.
  - intros points H. unfold process_point_annotations in H.
    apply (for_each_measure point_step (@length _)) in H; [simpl in H; lia |].
    intros x s w0 s' w0' Hstep. apply point_step_ok in Hstep.
    destruct Hstep as [-> | (pt & -> & _)]; [lia |].
    rewrite length_app. simpl. lia.
  - intros poses H. unfold process_pose_annotations in H.
    apply (for_each_measure pose_step (@length _)) in H; [simpl in H; lia |].
    intros x s w0 s' w0' Hstep. apply pose_step_ok in Hstep.
    destruct Hstep as [-> | (pt & -> & _)]; [lia |].
    rewrite length_app. simpl. lia.
  - intros regions H. unfold process_region_annotations in H.
    apply bind_ok in H. destruct H as (st & w1 & Hloop & H).
    apply ret_ok in H. destruct H as [-> _].
    apply (for_each_measure region_step (fun s => length (pending s))) in Hloop.
    + unfold consume. rewrite length_map.
      exact (Nat.le_trans _ _ _ Hloop Hz).
    + intros x s w0 s' w0' Hstep. apply region_step_ok in Hstep.
      destruct Hstep as [(g & _ & _ & ->) | (g & t & own & _ & _ & _ & ->)];
        simpl; [lia |].
      rewrite length_app. simpl. lia.
Qed.

Lemma tagged_output_bounded_witness :
  process_point_annotations [label "door1"] [marked_circle; marked_circle]
    [Ok marked_point_group; Ok marked_point_group] [] =
    (Ok [(Some "door1"%string, (10000, 20000))], []) /\
  (length ([(Some "door1"%string, (10000%Z, 20000%Z))] : list (point_t xy))
   <= Nat.min (length [marked_circle; marked_circle]) (length [label "door1"]))%nat.
Proof.
  split; [vm_compute; reflexivity |].
  apply (proj1 (tagged_output_bounded [label "door1"] [marked_circle; marked_circle]
                  [Ok marked_point_group; Ok marked_point_group] [] [])).
  vm_compute. reflexivity.
Defined.

(* ===================================================================== *)
(** ** Point lists of polygons *)
(* ===================================================================== *)




Lemma pyfloat_raises_value_error v e : pyfloat v = Raise e -> e = ValueError.
Proof.
  destruct v as [s | d]; simpl; [| discriminate].
  destruct (parse_decimal (list_ascii_of_string s)); [discriminate |].
  intros H. now injection H as <-.
Qed.

Lemma float_s3_raises_value_error v e : float_s3 v = Raise e -> e = ValueError.
Proof.
  unfold float_s3. destruct (pyfloat v) as [d | e'] eqn:E; simpl; [discriminate |].
  intros H. injection H as <-. now apply (pyfloat_raises_value_error v).
Qed.







Lemma split_ws_from_blank s : blank s -> split_ws_from EmptyString s = [].
Proof.
  unfold blank. induction s as [| c s IH]; simpl; [reflexivity |].
  intros H. apply andb_true_iff in H. destruct H as [-> Hs]. simpl. now apply IH.
Qed.

(** X17.  A marked polygon whose [points] attribute is empty or blank,
    under a parent whose transform resolves, is stored as a region without
    any vertex, with no warning. *)
Theorem blank_polygon_stored
    (region text_ g : Element) (t : xy) (points : string)
    (st : region_loop) (w : list warning) :
  get_group_transform g = Ok t ->
  get "points" (attrib region) = Some points ->
  blank points ->
  region_step (region, text_, Ok g) st w =
    (Ok (RegionLoop (pending st ++ [(text text_, [])]) t), w).
Proof.
  intros Ht Hp Hb. unfold region_step.
  unfold bind at 1. cbn [lift]. unfold bind at 1.
  rewrite (resolve_transform_resolved g _ w t Ht).
  unfold bind, lift, ret, getitem. rewrite Hp.
  unfold split_ws. rewrite (split_ws_from_blank points Hb). reflexivity.
Qed.

Lemma blank_polygon_stored_witness :
  process_region_annotations [label "void"] [blank_polygon] [Ok yard_group] [] =
    (Ok [(Some "void"%string, [])], []).
Proof.
  unfold process_region_annotations, zip3, combine, for_each.
  unfold bind at 1. unfold bind at 1.
  rewrite (blank_polygon_stored blank_polygon (label "void") yard_group (0, 0)
             "  " (RegionLoop [] (0, 0)) []); reflexivity.
Defined.

(* ===================================================================== *)
(** ** When the projection returns *)
(* ===================================================================== *)

Lemma project_door_cases {map_info W : Type} (conv : map_info -> xy -> W)
    (info : map_info) (d : door_t xy) :
  (two_approaches d /\ project_door conv info d = Ok (map_door (conv info) d)) \/
  (~ two_approaches d /\ project_door conv info d = Raise ValueError).
Proof.
  destruct d as [[name [d1 d2]] approach]. unfold two_approaches. simpl.
  destruct approach as [| p1 [| p2 [| p3 approach]]]; simpl;
    try (right; split; [discriminate | reflexivity]).
  left. auto.
Qed.

Lemma project_doors_refused {map_info W : Type} (conv : map_info -> xy -> W)
    (info : map_info) (doors : list (door_t xy)) :
  ~ Forall two_approaches doors ->
  all_ok (map (project_door conv info) doors) = Raise ValueError.
Proof.
  induction doors as [| d doors IH]; intros H.
  - elim H. constructor.
  - simpl. destruct (project_door_cases conv info d) as [[Hd ->] | [Hd ->]];
      [| reflexivity].
    simpl. rewrite IH; [reflexivity |].
    intros Hall. apply H. now constructor.
Qed.

(** X18.  [transform_to_map_coords] returns exactly when every door has
    two approach points, and then its result is the input with every
    coordinate converted; with any other door, unpacking the approach
    points raises [ValueError]. *)
Theorem projection_needs_two_approaches
    (map_info W : Type) (point_to_map_coords : map_info -> xy -> W)
    (info : map_info) (a : annotations xy) :
  (Forall two_approaches (doors_of a) ->
     transform_to_map_coords point_to_map_coords info a
       = Ok (map_annotations (point_to_map_coords info) a)) /\
  (~ Forall two_approaches (doors_of a) ->
     transform_to_map_coords point_to_map_coords info a = Raise ValueError).
Proof.
  split.
  - apply transform_to_map_coords_ok.
  - destruct a as [[[points poses] regions] doors]. simpl. intros H.
    now rewrite (project_doors_refused point_to_map_coords info doors H).
Qed.

Lemma projection_needs_two_approaches_witness :
  transform_to_map_coords sample_conv tt
    ([], [], [], [(Some "door1"%string, ((5000, 5000), (5000, 10000)),
                   [(3000, 7000); (7000, 7000)])])
    = Ok ([], [], [], [(Some "door1"%string, ((5000, 95000), (5000, 90000)),
                        [(3000, 93000); (7000, 93000)])]) /\
  transform_to_map_coords sample_conv tt ([], [], [], [lame_door])
    = Raise ValueError.
Proof.
  split.
  - apply (proj1 (projection_needs_two_approaches unit xy sample_conv tt
                    ([], [], [], [(Some "door1"%string, ((5000, 5000), (5000, 10000)),
                                   [(3000, 7000); (7000, 7000)])]))).
    repeat constructor.
  - apply (proj2 (projection_needs_two_approaches unit xy sample_conv tt
                    ([], [], [], [lame_door]))).
    intros H. inversion H as [| d l Hd _]. discriminate Hd.
Defined.

(* ===================================================================== *)
(** ** Where the doors and the points of a document come from *)
(* ===================================================================== *)

Lemma in_filtered_groups (n : nat) (groups : list node) (g : Element) :
  In g (map snd (filter (fun x => length_is (children (snd x)) n) groups)) ->
  In g (map snd groups) /\ length (children g) = n.
Proof.
  intros H. apply in_map_iff in H. destruct H as (x & <- & Hx).
  apply filter_In in Hx. destruct Hx as [Hin Hlen].
  split; [now apply in_map | now apply Nat.eqb_eq in Hlen].
Qed.

(** X19.  Every door in the result of [load_svg] has exactly two approach
    points and comes from a group of the document that has a circle child
    and four children; its threshold is the single line of the group's
    path, rounded and moved by the group's translation. *)
Theorem doors_of_document
    (parse_path : string -> result (list segment)) (tree : Element)
    (w w' : list warning) (a : annotations xy) :
  load_svg parse_path tree w = (Ok a, w') ->
  Forall (door_source parse_path tree) (doors_of a).
Proof.
  intros H. apply load_svg_ok in H.
  destruct H as (points & poses & regions & doors & path_poses & path_regions &
                 extra & w1 & w2 & w3 & w4 & w5 & _ & _ & _ & Hdoors & _ & _ & ->).
  simpl. revert Hdoors. unfold process_door_groups.
  apply (for_each_inv (door_step parse_path) (Forall (door_source parse_path tree)));
    [| constructor].
  intros g ds w0 ds' w0' Hin Hds Hstep. apply door_step_ok in Hstep.
  destruct Hstep as [-> | (name & t & approach & line & -> & _ & Ht & Hlen & Hread & Hline)];
    [assumption |].
  apply Forall_app. split; [assumption |]. constructor; [| constructor].
  apply in_filtered_groups in Hin. destruct Hin as [Hin Hfour].
  split.
  - unfold two_approaches. simpl. apply read_circles_length in Hread. congruence.
  - exists g. split; [assumption |]. split; [assumption |].
    apply extract_line_ok in Hline.
    destruct Hline as (p & d & start & end_ & Hp & Hd & Hparse & ->).
    exists t, p, d, start, end_. auto.
Qed.

Lemma doors_of_document_witness :
  Forall (door_source sample_parse_path full_doc)
         [(Some "door1"%string, ((5000, 5000), (5000, 10000)),
           [(3000, 7000); (7000, 7000)])].
Proof.
  apply (doors_of_document sample_parse_path full_doc [] []
           ([(Some "charger"%string, (15000, 25000))],
            [(Some "entry"%string, (0, 0), (0, 5000))],
            [(Some "kitchen"%string,
              [(5000, 5000); (15000, 5000); (15000, 15000); (5000, 15000)])],
            [(Some "door1"%string, ((5000, 5000), (5000, 10000)),
              [(3000, 7000); (7000, 7000)])])).
  vm_compute. reflexivity.
Defined.



(* ===================================================================== *)
(** ** Loading after checking *)
(* ===================================================================== *)

Lemma problems_warned (problems : list problem) (w : list warning) :
  for_each (fun prob (_ : unit) => warn (Problem prob)) problems tt w =
  (Ok tt, w ++ map Problem problems).
Proof.
  revert w. induction problems as [| p ps IH]; intros w; simpl.
  - unfold ret. now rewrite app_nil_r.
  - unfold bind, warn. rewrite IH. now rewrite <- app_assoc.
Qed.

(** X21.  The end of [load_map_from_yaml]: a document on which
    [check_svg_valid] raises is not loaded at all, the exception goes
    through; otherwise the checker's messages are warned first, in their
    order, and [load_svg] runs after them, its result (or its exception)
    being the result in raw-pixel mode. *)
Theorem loading_follows_checking
    (parse_path : string -> result (list segment))
    (map_info : Type) (width height : map_info -> nat)
    (W : Type) (point_to_map_coords : map_info -> xy -> W)
    (tree : Element) (info : map_info) :
  (forall e use_pixel_coords w,
      check_svg_valid width height tree info = Raise e ->
      load_annotations parse_path width height point_to_map_coords tree info
        use_pixel_coords w = (Raise e, w)) /\
  (forall problems w a w',
      check_svg_valid width height tree info = Ok problems ->
      load_svg parse_path tree (w ++ map Problem problems) = (Ok a, w') ->
      load_annotations parse_path width height point_to_map_coords tree info true w
        = (Ok (inl a), w')) /\
  (forall problems w e w' use_pixel_coords,
      check_svg_valid width height tree info = Ok problems ->
      load_svg parse_path tree (w ++ map Problem problems) = (Raise e, w') ->
      load_annotations parse_path width height point_to_map_coords tree info
        use_pixel_coords w = (Raise e, w')).
Proof.
  repeat split.
  - intros e b w H. unfold load_annotations, bind, lift. now rewrite H.
  - intros problems w a w' Hc Hl. unfold load_annotations.
    unfold bind at 1. unfold lift. rewrite Hc.
    unfold bind at 1. rewrite problems_warned.
    unfold bind. rewrite Hl. reflexivity.
  - intros problems w e w' b Hc Hl. unfold load_annotations.
    unfold bind at 1. unfold lift. rewrite Hc.
    unfold bind at 1. rewrite problems_warned.
    unfold bind. rewrite Hl. reflexivity.
Qed.

Lemma loading_follows_checking_witness :
  load_annotations sample_parse_path sample_size sample_size sample_conv
    no_image_doc tt true [] = (Raise AttributeError, []).
Proof.
  apply (proj1 (loading_follows_checking sample_parse_path unit sample_size
                  sample_size xy sample_conv no_image_doc tt)).
  vm_compute. reflexivity.
Defined.

(* ===================================================================== *)
(** ** Rounding *)
(* ===================================================================== *)




(* ===================================================================== *)
(** ** What [populate_doors] counts *)
(* ===================================================================== *)

Section PopulateFacts.

Variable Map Door Point C : Type.
Variable add_door : pytext -> C -> C -> C -> C -> Map -> Door * Map.
Variable door_is_valid : Door -> Map -> bool.
Variable add_point : string -> C -> C -> Map -> Point * Map.
Variable point_is_valid : Point -> Map -> bool.
Variable add_attribute : Point -> string -> Door -> Map -> Map.

Lemma failed_doors_snoc (log : list (populate_warning C)) msg :
  failed_doors C (log ++ [msg]) =
  (failed_doors C log + if is_failed_door C msg then 1 else 0)%nat.
Proof.
  unfold failed_doors. rewrite filter_app, length_app. simpl.
  destruct (is_failed_door C msg); reflexivity.
Qed.

Lemma failed_approaches_snoc (log : list (populate_warning C)) msg :
  failed_approaches C (log ++ [msg]) =
  (failed_approaches C log + if is_failed_door C msg then 0 else 1)%nat.
Proof.
  unfold failed_approaches. rewrite filter_app, length_app. simpl.
  destruct (is_failed_door C msg); reflexivity.
Qed.

Lemma approach_loop_accounts name door i approach map log pc map' log' pc' :
  approach_loop Map Door Point C add_point point_is_valid add_attribute
    name door i approach map log pc = (map', log', pc') ->
  failed_doors C log' = failed_doors C log /\
  (pc' + failed_approaches C log' =
   pc + failed_approaches C log + length approach)%nat.
Proof.
  revert i map log pc. induction approach as [| [x y] rest IH]; intros i map log pc H.
  - simpl in H. injection H as <- <- <-. simpl. lia.
  - cbn [approach_loop] in H.
    destruct (add_point (py_str name ++ "_approach" ++ str_of_nat i)%string x y map)
      as [point map1].
    destruct (negb (point_is_valid point map1)).
    + apply IH in H. rewrite failed_doors_snoc, failed_approaches_snoc in H.
      simpl in *. lia.
    + apply IH in H. simpl. lia.
Qed.

Lemma doors_loop_accounts doors map log dc pc dc' pc' map' log' :
  doors_loop Map Door Point C add_door door_is_valid add_point point_is_valid
    add_attribute doors map log dc pc = (dc', pc', map', log') ->
  (dc' + failed_doors C log' = dc + failed_doors C log + length doors)%nat /\
  (dc <= dc')%nat /\
  (pc' + failed_approaches C log' <=
   pc + failed_approaches C log
   + list_sum (List.map (fun d : door_t (C * C) => length (snd d)) doors))%nat /\
  (Forall (fun d : door_t (C * C) => length (snd d) = 2%nat) doors ->
   (pc' + failed_approaches C log' + 2 * dc =
    pc + failed_approaches C log + 2 * dc')%nat).
Proof.
  revert map log dc pc.
  induction doors as [| [[name [[x_0 y_0] [x_1 y_1]]] approach] rest IH];
    intros map log dc pc H.
  - simpl in H. injection H as <- <- <- <-. simpl. repeat split; lia.
  - cbn [doors_loop] in H. destruct (add_door name x_0 y_0 x_1 y_1 map) as [door map1].
    destruct (negb (door_is_valid door map1)).
    + apply IH in H. rewrite failed_doors_snoc, failed_approaches_snoc in H.
      simpl in *. destruct H as (H1 & H2 & H3 & H4).
      repeat split; try lia.
      intros Hall. inversion Hall; subst. specialize (H4 ltac:(assumption)). lia.
    + destruct (approach_loop Map Door Point C add_point point_is_valid add_attribute
                  name door 0 approach map1 log pc) as [[map2 log2] pc2] eqn:E.
      apply approach_loop_accounts in E. destruct E as [E1 E2].
      apply IH in H. destruct H as (H1 & H2 & H3 & H4). simpl.
      repeat split; try lia.
      intros Hall. inversion Hall as [| d l Htwo Hrest]; subst. simpl in Htwo.
      specialize (H4 Hrest). lia.
Qed.

(** X23.  [populate_doors] accounts for every door and every approach
    point: each door is either counted or reported by a failed-door
    warning; an approach point is tried only for a door that was added, and
    is then either counted or reported; so when every door has two approach
    points, the points counted and the approach warnings add up to twice
    the number of doors counted. *)
Theorem populate_doors_accounts
    (doors : list (door_t (C * C))) (map map' : Map)
    (door_count point_count : nat) (log : list (populate_warning C)) :
  populate_doors Map Door Point C add_door door_is_valid add_point point_is_valid
    add_attribute doors map = (door_count, point_count, map', log) ->
  (door_count + failed_doors C log = length doors)%nat /\
  (point_count + failed_approaches C log <=
   list_sum (List.map (fun d : door_t (C * C) => length (snd d)) doors))%nat /\
  (Forall (fun d : door_t (C * C) => length (snd d) = 2%nat) doors ->
   (point_count + failed_approaches C log = 2 * door_count)%nat).
Proof.
  unfold populate_doors. intros H. apply doors_loop_accounts in H.
  destruct H as (H1 & _ & H3 & H4). simpl in *.
  repeat split; try lia. intros Hall. specialize (H4 Hall). lia.
Qed.

Lemma approach_loop_all_valid name door i approach map log pc :
  (forall p m, point_is_valid p m = true) ->
  exists map',
    approach_loop Map Door Point C add_point point_is_valid add_attribute
      name door i approach map log pc = (map', log, (pc + length approach)%nat).
Proof.
  intros Hv. revert i map pc.
  induction approach as [| [x y] rest IH]; intros i map pc.
  - exists map. simpl. now rewrite Nat.add_0_r.
  - cbn [approach_loop].
    destruct (add_point (py_str name ++ "_approach" ++ str_of_nat i)%string x y map)
      as [point map1].
    rewrite Hv. cbn [negb].
    destruct (IH (S i) (add_attribute point "approach_to" door map1) (S pc))
      as [map' ->].
    exists map'. simpl. now rewrite Nat.add_succ_r.
Qed.

Lemma doors_loop_all_valid doors map log dc pc :
  (forall d m, door_is_valid d m = true) ->
  (forall p m, point_is_valid p m = true) ->
  exists map',
    doors_loop Map Door Point C add_door door_is_valid add_point point_is_valid
      add_attribute doors map log dc pc =
    ((dc + length doors)%nat,
     (pc + list_sum (List.map (fun d : door_t (C * C) => length (snd d)) doors))%nat,
     map', log).
Proof.
  intros Hd Hp. revert map dc pc.
  induction doors as [| [[name [[x_0 y_0] [x_1 y_1]]] approach] rest IH];
    intros map dc pc.
  - exists map. simpl. now rewrite !Nat.add_0_r.
  - cbn [doors_loop]. destruct (add_door name x_0 y_0 x_1 y_1 map) as [door map1].
    rewrite Hd. cbn [negb].
    destruct (approach_loop_all_valid name door 0 approach map1 log pc Hp)
      as [map2 ->].
    destruct (IH map2 (S dc) (pc + length approach)%nat) as [map' ->].
    exists map'. simpl. f_equal. f_equal. f_equal; lia.
Qed.

(** X24.  With a knowledge base that accepts every door and every point,
    [populate_doors] emits no warning and counts every door and every
    approach point. *)
Theorem populate_doors_all_valid (doors : list (door_t (C * C))) (map : Map) :
  (forall d m, door_is_valid d m = true) ->
  (forall p m, point_is_valid p m = true) ->
  exists map',
    populate_doors Map Door Point C add_door door_is_valid add_point
      point_is_valid add_attribute doors map =
    (length doors,
     list_sum (List.map (fun d : door_t (C * C) => length (snd d)) doors),
     map', []).
Proof.
  intros Hd Hp. unfold populate_doors.
  destruct (doors_loop_all_valid doors map [] 0%nat 0%nat Hd Hp) as [map' H].
  exists map'. exact H.
Qed.

Lemma approach_loop_messages name0 door approach i map log pc map' log' pc' :
  approach_loop Map Door Point C add_point point_is_valid add_attribute
    name0 door i approach map log pc = (map', log', pc') ->
  (forall name a b c d, In (FailedDoor C name a b c d) log -> a = c) ->
  forall name a b c d, In (FailedDoor C name a b c d) log' -> a = c.
Proof.
  revert i map log pc.
  induction approach as [| [x y] more IH]; intros i map log pc E Hlog.
  - simpl in E. injection E as <- <- <-. exact Hlog.
  - cbn [approach_loop] in E.
    destruct (add_point (py_str name0 ++ "_approach" ++ str_of_nat i)%string x y map)
      as [point map1].
    destruct (negb (point_is_valid point map1)).
    + apply (IH _ _ _ _ E).
      intros name a b c d Hin. apply in_app_or in Hin.
      destruct Hin as [Hin | [Hin | []]]; [now apply (Hlog name a b c d) |].
      discriminate.
    + apply (IH _ _ _ _ E). exact Hlog.
Qed.

Lemma doors_loop_messages doors map log dc pc dc' pc' map' log' :
  doors_loop Map Door Point C add_door door_is_valid add_point point_is_valid
    add_attribute doors map log dc pc = (dc', pc', map', log') ->
  (forall name a b c d, In (FailedDoor C name a b c d) log -> a = c) ->
  forall name a b c d, In (FailedDoor C name a b c d) log' -> a = c.
Proof.
  revert map log dc pc.
  induction doors as [| [[name0 [[x_0 y_0] [x_1 y_1]]] approach] rest IH];
    intros map log dc pc H Hlog.
  - simpl in H. injection H as <- <- <- <-. exact Hlog.
  - cbn [doors_loop] in H. destruct (add_door name0 x_0 y_0 x_1 y_1 map) as [door map1].
    destruct (negb (door_is_valid door map1)).
    + apply (IH _ _ _ _ H).
      intros name a b c d Hin. apply in_app_or in Hin.
      destruct Hin as [Hin | [Hin | []]]; [now apply (Hlog name a b c d) |].
      now injection Hin as _ <- _ <- _.
    + destruct (approach_loop Map Door Point C add_point point_is_valid add_attribute
                  name0 door 0 approach map1 log pc) as [[map2 log2] pc2] eqn:E.
      apply (IH _ _ _ _ H).
      exact (approach_loop_messages _ _ _ _ _ _ _ _ _ _ E Hlog).
Qed.

(** X25.  In every failed-door warning that [populate_doors] emits, the
    third coordinate formatted is the first one again: the message shows
    the second end of the threshold as (x_0, y_1), never with x_1. *)
Theorem failed_door_warning_repeats_x0
    (doors : list (door_t (C * C))) (map map' : Map)
    (door_count point_count : nat) (log : list (populate_warning C)) :
  populate_doors Map Door Point C add_door door_is_valid add_point point_is_valid
    add_attribute doors map = (door_count, point_count, map', log) ->
  forall name a b c d, In (FailedDoor C name a b c d) log -> a = c.
Proof.
  unfold populate_doors. intros H. apply (doors_loop_messages _ _ _ _ _ _ _ _ _ H).
  intros name a b c d [].
Qed.

End PopulateFacts.

Lemma populate_doors_accounts_witness :
  (2 + failed_doors Z (snd sample_populate) = length sample_doors)%nat /\
  (4 + failed_approaches Z (snd sample_populate) = 2 * 2)%nat.
Proof.
  destruct (populate_doors_accounts (list string) bool bool Z
              (fun name _ _ _ _ names => sample_add (py_str name) names)
              (fun door _ => door)
              (fun name _ _ names => sample_add name names)
              (fun point _ => point)
              (fun _ _ _ names => names)
              sample_doors [] (snd (fst sample_populate)) 2%nat 4%nat
              (snd sample_populate) ltac:(vm_compute; reflexivity))
    as (H1 & _ & H3).
  split; [exact H1 |]. apply H3. repeat constructor.
Defined.

Lemma populate_doors_all_valid_witness :
  exists map',
    populate_doors (list string) bool bool Z
      (fun name _ _ _ _ names => (true, py_str name :: names))
      (fun _ _ => true)
      (fun name _ _ names => (true, name :: names))
      (fun _ _ => true)
      (fun _ _ _ names => names)
      sample_doors [] =
    (length sample_doors,
     list_sum (List.map (fun d : door_t xy => length (snd d)) sample_doors),
     map', []).
Proof.
  apply (populate_doors_all_valid (list string) bool bool Z
           (fun name _ _ _ _ names => (true, py_str name :: names))
           (fun _ _ => true)
           (fun name _ _ names => (true, name :: names))
           (fun _ _ => true)
           (fun _ _ _ names => names)
           sample_doors []); reflexivity.
Defined.

Lemma failed_door_warning_repeats_x0_witness :
  snd sample_populate = [FailedDoor Z (Some "d"%string) 0 0 0 5000] /\
  forall name a b c d,
    In (FailedDoor Z name a b c d) (snd sample_populate) -> a = c.
Proof.
  split; [vm_compute; reflexivity |].
  apply (failed_door_warning_repeats_x0 (list string) bool bool Z
           (fun name _ _ _ _ names => sample_add (py_str name) names)
           (fun door _ => door)
           (fun name _ _ names => sample_add name names)
           (fun point _ => point)
           (fun _ _ _ names => names)
           sample_doors [] (snd (fst sample_populate)) 2%nat 4%nat).
  vm_compute. reflexivity.
Defined.

(* ===================================================================== *)
(** ** The translation of path regions *)
(* ===================================================================== *)

Lemma path_step_translate parse_path g s w s' w' :
  path_step parse_path g s w = (Ok s', w') ->
  translate_var (snd s') = translate_after (translate_var (snd s)) g.
Proof.
  destruct s as [poses st]. unfold path_step, translate_after. intros H.
  destruct (negb (length_is (children g) 2)).
  { apply ret_ok in H. destruct H as [-> _]. reflexivity. }
  destruct (get_text_from_group g) as [text_ |].
  2:{ apply warn_then_ok in H. destruct H as [-> _]. reflexivity. }
  apply bind_ok in H. destruct H as (r & w1 & Hr & H).
  destruct r as [t |].
  2:{ apply ret_ok in H. destruct H as [-> _].
      apply resolve_transform_none in Hr. now rewrite Hr. }
  apply resolve_transform_some in Hr. destruct Hr as [Ht ->]. rewrite Ht.
  apply bind_ok in H. destruct H as (l & w2 & _ & H).
  destruct l as [pose |].
  { apply ret_ok in H. destruct H as [-> _]. reflexivity. }
  apply bind_ok in H. destruct H as (a & w3 & _ & H).
  apply bind_ok in H. destruct H as (d & w4 & _ & H).
  apply bind_ok in H. destruct H as (segs & w5 & _ & H).
  destruct (forallb is_line segs).
  - apply ret_ok in H. destruct H as [-> _]. reflexivity.
  - apply warn_then_ok in H. destruct H as [-> _]. reflexivity.
Qed.

Lemma path_loop_translate_after parse_path groups s w s' w' :
  for_each (path_step parse_path) groups s w = (Ok s', w') ->
  translate_var (snd s') = fold_left translate_after groups (translate_var (snd s)).
Proof.
  revert s w. induction groups as [| g groups IH]; intros s w H; simpl in H.
  - apply ret_ok in H. destruct H as [-> _]. reflexivity.
  - apply bind_ok in H. destruct H as (s1 & w1 & Hstep & H).
    simpl. rewrite (IH s1 w1 H). f_equal.
    now apply (path_step_translate parse_path g s w s1 w1).
Qed.

(** X26.  All the regions that [process_paths] returns are moved by one
    and the same translation: the value its variable [translate] holds
    when the loop has ended, set by the last group that got as far as the
    resolution of its transform, and not, in general, the translation of
    each region's own group. *)
Theorem path_regions_share_last_translation
    (parse_path : string -> result (list segment)) (groups : list Element)
    (w w' : list warning) (poses : list (pose_t xy)) (regions : list (region_t xy)) :
  process_paths parse_path groups w = (Ok (poses, regions), w') ->
  Forall (fun rg =>
            exists g path d segs,
              In g groups /\
              find_descendant path_el g = Some path /\
              get "d" (attrib path) = Some d /\
              parse_path d = Ok segs /\
              snd rg = map (fun l => offset (path_loop_translate groups)
                                            (round_point (seg_start l))) segs)
         regions.
Proof.
  unfold process_paths. destruct groups as [| g0 groups].
  { intros H. apply ret_ok in H. destruct H as [H _]. injection H as _ ->. constructor. }
  remember (g0 :: groups) as gs eqn:Egs. clear Egs. intros H.
  apply bind_ok in H. destruct H as (st & w1 & Hloop & H).
  apply ret_ok in H. destruct H as [H _]. injection H as _ ->.
  assert (Ht := path_loop_translate_after _ _ _ _ _ _ Hloop). simpl in Ht.
  assert (Hpend : Forall (fun rg => exists g, In g gs /\ path_pending_from parse_path g rg)
                         (pending (snd st))).
  { revert Hloop.
    apply (for_each_inv (path_step parse_path)
             (fun s => Forall (fun rg => exists g, In g gs /\
                                                   path_pending_from parse_path g rg)
                              (pending (snd s))));
      [| constructor].
    intros g s w0 s' w0' Hin Hs Hstep. apply path_step_ok in Hstep.
    destruct Hstep as [-> | (rg & -> & Hrg)]; [assumption |].
    apply Forall_app. split; [assumption |]. constructor; [| constructor]. eauto. }
  unfold consume. apply Forall_map. revert Hpend. apply Forall_impl.
  intros rg (g & Hin & path & d & segs & Hpath & Hd & Hsegs & _ & _ & Hrg).
  exists g, path, d, segs. simpl. rewrite Hrg, map_map.
  unfold path_loop_translate. rewrite <- Ht. auto.
Qed.

Lemma path_regions_share_last_translation_witness :
  process_paths sample_parse_path [moved_corner_group; entry_group] [] =
    (Ok ([(Some "entry"%string, (0, 0), (0, 5000))],
         [(Some "corner"%string, [(0, 0); (10000, 0)])]), []) /\
  path_loop_translate [moved_corner_group; entry_group] = (0, 0) /\
  Forall (fun rg =>
            exists g path d segs,
              In g [moved_corner_group; entry_group] /\
              find_descendant path_el g = Some path /\
              get "d" (attrib path) = Some d /\
              sample_parse_path d = Ok segs /\
              snd rg = map (fun l => offset (path_loop_translate
                                               [moved_corner_group; entry_group])
                                            (round_point (seg_start l))) segs)
         [(Some "corner"%string, [(0, 0); (10000, 0)])].
Proof.
  split; [vm_compute; reflexivity |]. split; [vm_compute; reflexivity |].
  apply (path_regions_share_last_translation sample_parse_path
           [moved_corner_group; entry_group] [] []
           [(Some "entry"%string, (0, 0), (0, 5000))]).
  vm_compute. reflexivity.
Defined.

(* ===================================================================== *)
(** ** Inputs that end the parse *)
(* ===================================================================== *)

(** X27.  A door group with a label, a transform that resolves and two
    readable circles, but without a path child, makes the door loop raise
    [AttributeError]: the warning for a door without a line is not
    reached. *)
Theorem door_group_without_path_aborts
    (parse_path : string -> result (list segment))
    (g label_ : Element) (t : xy) (approach : list xy)
    (doors : list (door_t xy)) (w : list warning) :
  get_text_from_group g = Some label_ ->
  get_group_transform g = Ok t ->
  length (findall_children circle_el g) = 2%nat ->
  read_circles (findall_children circle_el g) t = Ok approach ->
  find_child path_el g = None ->
  door_step parse_path g doors w = (Raise AttributeError, w).
Proof.
  intros Hlabel Ht Hlen Hread Hpath.
  unfold door_step. rewrite Hlabel. unfold bind at 1. cbn [text_of lift].
  unfold bind at 1. rewrite (resolve_transform_resolved g _ w t Ht).
  unfold length_is. rewrite Hlen. cbn [Nat.eqb negb].
  unfold bind at 1. unfold lift at 1. rewrite Hread. rewrite Hpath. reflexivity.
Qed.

Lemma door_group_without_path_aborts_witness :
  door_step sample_parse_path pathless_door_group [] [] = (Raise AttributeError, []).
Proof.
  apply (door_group_without_path_aborts sample_parse_path pathless_door_group
           (label "door5") (0, 0) [(-2000, 2000); (2000, 2000)] [] []);
    vm_compute; reflexivity.
Defined.

Lemma for_each_raises {A St} (body : A -> St -> M St) xs x ys s w s1 w1 e w2 :
  for_each body xs s w = (Ok s1, w1) ->
  body x s1 w1 = (Raise e, w2) ->
  for_each body (xs ++ x :: ys) s w = (Raise e, w2).
Proof.
  intros H1 H2. rewrite for_each_app. unfold bind. rewrite H1. simpl.
  unfold bind. now rewrite H2.
Qed.

Lemma own_xy_raises attrs kx ky e :
  own_xy attrs kx ky = Raise e -> e = KeyError \/ e = ValueError.
Proof.
  unfold own_xy, getitem.
  destruct (get kx attrs) as [sx |]; cbn [rbind];
    [| intros H; injection H as <-; now left].
  destruct (float_s3 (PStr sx)) as [x | ex] eqn:Ex; cbn [rbind].
  2:{ intros H. injection H as <-. right.
      now apply (float_s3_raises_value_error (PStr sx)). }
  destruct (get ky attrs) as [sy |]; cbn [rbind];
    [| intros H; injection H as <-; now left].
  destruct (float_s3 (PStr sy)) as [y | ey] eqn:Ey; cbn [rbind]; [discriminate |].
  intros H. injection H as <-. right.
  now apply (float_s3_raises_value_error (PStr sy)).
Qed.

(** X28.  A marked circle whose centre cannot be read (a missing [cx] or
    [cy]: [KeyError]; a value that is not a number: [ValueError]), under a
    parent whose transform resolves, makes [process_point_annotations]
    raise that exception: the points collected before it and the shapes
    after it are lost, and no warning is added for it. *)
Theorem unreadable_circle_aborts
    (names annots : list Element) (parents : list (result Element))
    (before after : list tagged) (point text_ g : Element) (t : xy) (e : exn)
    (w w1 : list warning) (points : list (point_t xy)) :
  zip3 annots names parents = before ++ (point, text_, Ok g) :: after ->
  for_each point_step before [] w = (Ok points, w1) ->
  get_group_transform g = Ok t ->
  own_xy (attrib point) "cx" "cy" = Raise e ->
  process_point_annotations names annots parents w = (Raise e, w1) /\
  (e = KeyError \/ e = ValueError).
Proof.
  intros Hzip Hbefore Ht Hown. split; [| now apply own_xy_raises in Hown].
  unfold process_point_annotations. rewrite Hzip.
  apply (for_each_raises point_step before (point, text_, Ok g) after [] w points w1 e w1
           Hbefore).
  unfold point_step. unfold bind at 1. cbn [lift]. unfold bind at 1.
  rewrite (resolve_transform_resolved g _ w1 t Ht).
  unfold bind, lift. rewrite read_xy_own, Hown. reflexivity.
Qed.

Lemma unreadable_circle_aborts_witness :
  process_point_annotations [label "charger"; label "lost"]
    [marked_circle; half_circle] [Ok marked_point_group; Ok marked_point_group] [] =
    (Raise KeyError, []) /\
  (KeyError = KeyError \/ KeyError = ValueError).
Proof.
  apply (unreadable_circle_aborts [label "charger"; label "lost"]
           [marked_circle; half_circle] [Ok marked_point_group; Ok marked_point_group]
           [(marked_circle, label "charger", Ok marked_point_group)] []
           half_circle (label "lost") marked_point_group (0, 0) KeyError [] []
           [(Some "charger"%string, (10000, 20000))]);
    vm_compute; reflexivity.
Defined.
